(** * joystick.py: calibration and signal conditioning of a two-axis stick

    A shallow embedding of [src/joystick.py] (class [Joystick]) and the
    properties its specification states about it.

    Conventions of the embedding.
    - Python [int] is [Z].  ADC readings are 16 bits wide: [read_u16]
      reduces the sample modulo 65536.
    - Python [float] is embedded as an exact rational [Q].  Every float
      that the program forms comes from integers by one true division,
      one multiplication and a comparison; the embedding keeps the exact
      value of these, so it describes the program up to the rounding
      error of the float format.  [round] is the round-half-to-even of
      Python 3.
    - Values read from the peripherals are effects.  They are threaded
      through a state-and-exception monad [M] over a [World] that holds
      the two ADC channels, the button pin and the calibration file.
    - Console traffic ([input], [print]) carries no data that any
      function reads back; it is left out of the [World].
    - [list.sort] is the stable sort of the language reference.
    - [find_file] searches a directory tree given as a value; [init]
      starts from the file that was found.  The two polling coroutines
      ([button_waiter], [get_waiter]) carry a bound on their polls, and
      their sleep is a silent step. *)

From Stdlib Require Import ZArith QArith Qround Qabs Lia Lqa List Ascii String.
From Stdlib Require Import DecimalString DecimalN.
From stdpp Require Import base list.

Open Scope Z_scope.

(** ** Exceptions and results *)

Inductive exn : Type :=
| ZeroDivisionError
| IndexError
| TypeError
| AttributeError
| OSError.

Inductive result (A : Type) : Type :=
| Ok (a : A)
| Raise (e : exn).

Arguments Ok {A} a.
Arguments Raise {A} e.

(** ** Python numeric built-ins *)

Module Py.

(** [x < y] on floats. *)
Definition ltb (x y : Q) : bool :=
  Qnum x * QDen y <? Qnum y * QDen x.

(** [round(x)]: nearest integer, ties to the even one. *)
Definition round (x : Q) : Z :=
  let f := Qfloor x in
  match (x - inject_Z f ?= 1 # 2)%Q with
  | Lt => f
  | Gt => f + 1
  | Eq => if Z.even f then f else f + 1
  end.

(** [round(x, ndigits)] for [ndigits >= 0]: scale, round, scale back. *)
Definition round_nd (x : Q) (ndigits : nat) : Q :=
  let m := 10 ^ Z.of_nat ndigits in
  (inject_Z (round (x * inject_Z m)) / inject_Z m)%Q.

(** [max(a, b)] and [min(a, b)]: the first argument wins a tie. *)
Definition max (a b : Q) : Q := if ltb a b then b else a.
Definition min (a b : Q) : Q := if ltb b a then b else a.

(** [a / b] on two ints: true division. *)
Definition truediv (a b : Z) : result Q :=
  if b =? 0 then Raise ZeroDivisionError
  else Ok (inject_Z a / inject_Z b)%Q.

(** [l[i]] with Python's negative indices. *)
Definition index {A : Type} (l : list A) (i : Z) : result A :=
  let n := Z.of_nat (length l) in
  let k := if i <? 0 then i + n else i in
  if (k <? 0) || (n <=? k) then Raise IndexError
  else match l !! Z.to_nat k with
       | Some x => Ok x
       | None => Raise IndexError
       end.

End Py.

(** ** Calibration data

    [cal_data] is the value of line 2 of the calibration file: a list of
    pose entries, each a list of strings and ints. *)

Inductive atom : Type :=
| AInt (z : Z)
| AStr (s : string).

Definition entry : Type := list atom.

Definition as_int (a : atom) : result Z :=
  match a with
  | AInt z => Ok z
  | AStr _ => Raise TypeError
  end.

(** [a == 1] for a value read from the record. *)
Definition atom_is (a : atom) (k : Z) : bool :=
  match a with
  | AInt z => z =? k
  | AStr _ => false
  end.

(** ** The world outside the interpreter *)

(** A channel delivers [feed 0], [feed 1], ... on successive reads. *)
Record Channel : Type := MkChannel {
  feed : nat -> Z;
  pos : nat
}.

Definition sample (c : Channel) : Z := feed c (pos c).
Definition advance (c : Channel) : Channel :=
  {| feed := feed c; pos := S (pos c) |}.

Record World : Type := MkWorld {
  adc1 : Channel;            (* self.a1 *)
  adc2 : Channel;            (* self.a2 *)
  pin : Channel;             (* self.btn *)
  file_text : list ascii;    (* content of self.file *)
  file_writable : bool       (* whether open(self.file, "w") succeeds *)
}.

Definition M (A : Type) : Type := World -> result (A * World).

Definition ret {A : Type} (a : A) : M A := fun w => Ok (a, w).

Definition bind {A B : Type} (m : M A) (k : A -> M B) : M B :=
  fun w =>
    match m w with
    | Ok (a, w') => k a w'
    | Raise e => Raise e
    end.

Definition lift {A : Type} (r : result A) : M A :=
  fun w =>
    match r with
    | Ok a => Ok (a, w)
    | Raise e => Raise e
    end.

Notation "x <- m ;; k" := (bind m (fun x => k))
  (at level 60, m at next level, right associativity).

(** [self.a1.read_u16()], [self.a2.read_u16()], [self.btn.value()]. *)
Definition a1_read_u16 : M Z := fun w =>
  Ok (sample (adc1 w) mod 65536,
      {| adc1 := advance (adc1 w); adc2 := adc2 w; pin := pin w;
         file_text := file_text w; file_writable := file_writable w |}).

Definition a2_read_u16 : M Z := fun w =>
  Ok (sample (adc2 w) mod 65536,
      {| adc1 := adc1 w; adc2 := advance (adc2 w); pin := pin w;
         file_text := file_text w; file_writable := file_writable w |}).

Definition btn_value : M Z := fun w =>
  Ok (sample (pin w) mod 2,
      {| adc1 := adc1 w; adc2 := adc2 w; pin := advance (pin w);
         file_text := file_text w; file_writable := file_writable w |}).

(** The world after [n1], [n2] and [nb] further reads of the two axes
    and of the button. *)
Definition after_reads (n1 n2 nb : nat) (w : World) : World :=
  {| adc1 := Nat.iter n1 advance (adc1 w);
     adc2 := Nat.iter n2 advance (adc2 w);
     pin := Nat.iter nb advance (pin w);
     file_text := file_text w; file_writable := file_writable w |}.

(** ** The [Joystick] object *)

(** Constructor arguments kept on the instance. *)
Record Settings : Type := MkSettings {
  samples : Z;
  deadzone : Z;
  at_ : Z
}.

(** The attributes that [load_calib] assigns. *)
Record Calib : Type := MkCalib {
  middle1 : Z;
  middle1_range : list Z;
  middle2 : Z;
  middle2_range : list Z;
  middle : list (list Z);
  leftval : atom;
  leftaxis : atom;
  rightval : atom;
  rightaxis : atom;
  upval : atom;
  upaxis : atom;
  downval : atom;
  downaxis : atom
}.

Record Joystick : Type := MkJoystick {
  settings : Settings;
  calib : Calib
}.

(** [data[i][k]] *)
Definition cell (data : list entry) (i k : Z) : result atom :=
  match Py.index data i with
  | Ok e => Py.index e k
  | Raise x => Raise x
  end.

Definition rbind {A B : Type} (r : result A) (k : A -> result B) : result B :=
  match r with
  | Ok a => k a
  | Raise e => Raise e
  end.

Notation "x <~ r ;; k" := (rbind r (fun x => k))
  (at level 60, r at next level, right associativity).

(** [middle * p] for an int read from the record and a float factor. *)
Definition scaled (c : Z) (p : Q) : Z := Py.round (inject_Z c * p).

Definition load_calib (cfg : Settings) (data : list entry) : result Calib :=
  let p_over := Py.round_nd (inject_Z (100 + deadzone cfg) / 100) 2 in
  let p_under := Py.round_nd (inject_Z (100 - deadzone cfg) / 100) 2 in
  m1a <~ cell data 0 2 ;;
  m1 <~ as_int m1a ;;
  let m1_range := [scaled m1 p_under; m1; scaled m1 p_over] in
  m2a <~ cell data 0 4 ;;
  m2 <~ as_int m2a ;;
  let m2_range := [scaled m2 p_under; m2; scaled m2 p_over] in
  lv <~ cell data 1 2 ;;
  la <~ cell data 1 1 ;;
  rv <~ cell data 2 2 ;;
  ra <~ cell data 2 1 ;;
  uv <~ cell data 3 2 ;;
  ua <~ cell data 3 1 ;;
  dv <~ cell data 4 2 ;;
  da <~ cell data 4 1 ;;
  Ok {| middle1 := m1; middle1_range := m1_range;
        middle2 := m2; middle2_range := m2_range;
        middle := [m1_range; m2_range];
        leftval := lv; leftaxis := la;
        rightval := rv; rightaxis := ra;
        upval := uv; upaxis := ua;
        downval := dv; downaxis := da |}.

(** [sum(adc.read_u16() for _ in range(n))] *)
Fixpoint read_sum (read : M Z) (n : nat) : M Z :=
  match n with
  | O => ret 0
  | S n' => v <- read ;; rest <- read_sum read n' ;; ret (v + rest)
  end.

Definition axis_reader (self : Joystick) (axis : atom) : M Z :=
  let adc := if atom_is axis 1 then a1_read_u16 else a2_read_u16 in
  let n := samples (settings self) in
  total <- read_sum adc (Z.to_nat n) ;;
  q <- lift (Py.truediv total n) ;;
  ret (Py.round q).

Definition converter (self : Joystick) (axis maxval : atom) : M Z :=
  val <- axis_reader self axis ;;
  ax <- lift (as_int axis) ;;
  band <- lift (Py.index (middle (calib self)) (ax - 1)) ;;
  mid1 <- lift (Py.index band 0) ;;
  band' <- lift (Py.index (middle (calib self)) (ax - 1)) ;;
  mid2 <- lift (Py.index band' 2) ;;
  if val >? mid2 then
    mx <- lift (as_int maxval) ;;
    q <- lift (Py.truediv (val - mid2) (mx - mid2)) ;;
    let percent := (q * 100)%Q in
    ret (Py.round (Py.min 100 (Py.max 0 percent)))
  else if val <? mid1 then
    mx <- lift (as_int maxval) ;;
    q <- lift (Py.truediv (mid1 - val) (mid1 - mx)) ;;
    let percent := (q * 100)%Q in
    ret (Py.round (Py.min 100 (Py.max 0 percent)))
  else
    ret 0.

(** ** Direction queries *)

(** What [up], [down], [right], [left] and [button] hand back: the
    percentage when asked for it, else a truth value. *)
Inductive reading : Type :=
| RInt (p : Z)
| RBool (b : bool).

(** A [bool] is an [int] in comparisons: [True == 1], [False == 0]. *)
Definition int_of (r : reading) : Z :=
  match r with
  | RInt p => p
  | RBool b => if b then 1 else 0
  end.

Definition button : M bool :=
  v <- btn_value ;; ret (v =? 0).

Definition up (self : Joystick) (percent : bool) : M reading :=
  p <- converter self (upaxis (calib self)) (upval (calib self)) ;;
  ret (if percent then RInt p else RBool (p >? 50)).

Definition down (self : Joystick) (percent : bool) : M reading :=
  p <- converter self (downaxis (calib self)) (downval (calib self)) ;;
  ret (if percent then RInt p else RBool (p >? 50)).

Definition right (self : Joystick) (percent : bool) : M reading :=
  p <- converter self (rightaxis (calib self)) (rightval (calib self)) ;;
  ret (if percent then RInt p else RBool (p >? 50)).

Definition left (self : Joystick) (percent : bool) : M reading :=
  p <- converter self (leftaxis (calib self)) (leftval (calib self)) ;;
  ret (if percent then RInt p else RBool (p >? 50)).

(** [getattr(self, name)] for the names the loops look up. *)
Definition getattr (self : Joystick) (name : string)
  : result (bool -> M reading) :=
  if String.eqb name "up" then Ok (up self)
  else if String.eqb name "down" then Ok (down self)
  else if String.eqb name "right" then Ok (right self)
  else if String.eqb name "left" then Ok (left self)
  else Raise AttributeError.

(** The loop [for direction in names: directions.append([direction,
    method(True)])]. *)
Fixpoint poll (self : Joystick) (names : list string)
    (directions : list (string * reading)) : M (list (string * reading)) :=
  match names with
  | [] => ret directions
  | direction :: rest =>
      method <- lift (getattr self direction) ;;
      r <- method true ;;
      poll self rest (directions ++ [(direction, r)])
  end.

(** [directions.sort(key=lambda x: x[1], reverse=True)]: a stable sort,
    largest key first; entries with equal keys keep their order. *)
Fixpoint insert_desc (x : string * reading) (l : list (string * reading))
  : list (string * reading) :=
  match l with
  | [] => [x]
  | y :: l' =>
      if int_of (snd y) >? int_of (snd x) then y :: insert_desc x l'
      else x :: y :: l'
  end.

Fixpoint sort_desc (l : list (string * reading)) : list (string * reading) :=
  match l with
  | [] => []
  | x :: l' => insert_desc x (sort_desc l')
  end.

(** What [max_direction] and [get] return: [None], a name, or a
    [[name, percent]] pair. *)
Inductive answer : Type :=
| ANone
| AName (s : string)
| APair (s : string) (r : reading).

Definition max_direction (self : Joystick) (as_bool : bool) : M answer :=
  directions <- poll self ["up"; "down"; "right"; "left"]%string [] ;;
  let directions := sort_desc directions in
  d0 <- lift (Py.index directions 0) ;;
  if int_of (snd d0) =? 0 then ret ANone
  else if as_bool then
    d0' <- lift (Py.index directions 0) ;;
    if int_of (snd d0') >? 50 then ret (AName (fst d0')) else ret ANone
  else
    ret (APair (fst d0) (snd d0)).

Definition get_all_states (self : Joystick) : M (list (string * reading)) :=
  b <- button ;;
  poll self ["up"; "down"; "right"; "left"]%string [("button"%string, RBool b)].

Definition get (self : Joystick) (as_bool : bool) : M answer :=
  b <- button ;;
  if b then ret (AName "button") else max_direction self as_bool.

(** ** Text: lines of a file, [str.strip], [str()] and [eval]

    Text is a list of bytes.  [repr] follows the interpreter's printer
    for lists, ints and strings; [eval] is restricted to the literals
    that the calibration line can hold (lists of lists of ints and
    strings).  [None] stands for a syntax error or for text outside
    that fragment. *)

Module Text.

Definition chars (s : string) : list ascii := list_ascii_of_string s.

Definition nl : ascii := "010"%char.
Definition cr : ascii := "013"%char.
Definition tab : ascii := "009"%char.
Definition squote : ascii := "039"%char.
Definition dquote : ascii := "034"%char.
Definition bslash : ascii := "092"%char.

(** [file.readline()]: the line with its terminator, and the rest. *)
Fixpoint readline (s : list ascii) : list ascii * list ascii :=
  match s with
  | [] => ([], [])
  | c :: s' =>
      if Ascii.eqb c nl then ([c], s')
      else let (l, r) := readline s' in (c :: l, r)
  end.

(** [file.readlines()]: every line keeps its terminator. *)
Fixpoint readlines (s : list ascii) : list (list ascii) :=
  match s with
  | [] => []
  | c :: s' =>
      if Ascii.eqb c nl then [c] :: readlines s'
      else match readlines s' with
           | [] => [[c]]
           | l :: ls => (c :: l) :: ls
           end
  end.

(** [str.strip()] *)
Definition is_space (c : ascii) : bool :=
  let n := nat_of_ascii c in
  (n =? 32)%nat || ((9 <=? n)%nat && (n <=? 13)%nat).

Fixpoint lstrip (s : list ascii) : list ascii :=
  match s with
  | [] => []
  | c :: s' => if is_space c then lstrip s' else s
  end.

Definition strip (s : list ascii) : list ascii :=
  rev (lstrip (rev (lstrip s))).

(** *** Printing *)

Definition repr_N (n : N) : list ascii :=
  chars (NilEmpty.string_of_uint (N.to_uint n)).

Definition repr_int (z : Z) : list ascii :=
  if z <? 0 then "-"%char :: repr_N (Z.abs_N z) else repr_N (Z.abs_N z).

Definition hex_digit (n : nat) : ascii :=
  nth n (chars "0123456789abcdef") "0"%char.

Definition escape (q c : ascii) : list ascii :=
  if Ascii.eqb c q then [bslash; q]
  else if Ascii.eqb c bslash then [bslash; bslash]
  else if Ascii.eqb c nl then [bslash; "n"%char]
  else if Ascii.eqb c cr then [bslash; "r"%char]
  else if Ascii.eqb c tab then [bslash; "t"%char]
  else
    let n := nat_of_ascii c in
    if (n <? 32)%nat || (n =? 127)%nat
    then [bslash; "x"%char; hex_digit (n / 16); hex_digit (n mod 16)]
    else [c].

(** Single quotes, unless the string holds one and no double quote. *)
Definition quote_for (s : list ascii) : ascii :=
  if existsb (Ascii.eqb squote) s && negb (existsb (Ascii.eqb dquote) s)
  then dquote else squote.

Definition repr_str (s : list ascii) : list ascii :=
  let q := quote_for s in
  q :: flat_map (escape q) s ++ [q].

Definition repr_atom (a : atom) : list ascii :=
  match a with
  | AInt z => repr_int z
  | AStr s => repr_str (chars s)
  end.

(** Items separated by [", "] between brackets. *)
Fixpoint join (items : list (list ascii)) : list ascii :=
  match items with
  | [] => []
  | [x] => x
  | x :: rest => x ++ chars ", " ++ join rest
  end.

Definition repr_list (items : list (list ascii)) : list ascii :=
  "["%char :: join items ++ ["]"%char].

Definition repr_entry (e : entry) : list ascii :=
  repr_list (map repr_atom e).

(** [str(cal_data)], the text of [f'{self.cal_data}']. *)
Definition repr (data : list entry) : list ascii :=
  repr_list (map repr_entry data).

(** *** Reading back: tokens *)

Inductive token : Type :=
| TLbr
| TRbr
| TComma
| TMinus
| TNum (n : N)
| TStr (s : list ascii).

(** Scanner states.  Digits and string bodies are gathered in reverse. *)
Inductive lstate : Type :=
| LIdle
| LNum (acc : Decimal.uint)
| LStr (q : ascii) (acc : list ascii)
| LEsc (q : ascii) (acc : list ascii)
| LHex1 (q : ascii) (acc : list ascii)
| LHex2 (q : ascii) (acc : list ascii) (hi : nat).

Definition digit (c : ascii) (acc : Decimal.uint) : option Decimal.uint :=
  uint_of_char c (Some acc).

Definition hex_value (c : ascii) : option nat :=
  let n := nat_of_ascii c in
  if (48 <=? n)%nat && (n <=? 57)%nat then Some (n - 48)%nat
  else if (97 <=? n)%nat && (n <=? 102)%nat then Some (n - 87)%nat
  else if (65 <=? n)%nat && (n <=? 70)%nat then Some (n - 55)%nat
  else None.

(** A decimal literal: no leading zero unless every digit is zero. *)
Definition number (acc : Decimal.uint) : option N :=
  let d := Decimal.rev acc in
  match d with
  | Decimal.D0 _ => if (N.of_uint d =? 0)%N then Some 0%N else None
  | _ => Some (N.of_uint d)
  end.

Definition idle_step (c : ascii) : option (lstate * list token) :=
  if Ascii.eqb c "["%char then Some (LIdle, [TLbr])
  else if Ascii.eqb c "]"%char then Some (LIdle, [TRbr])
  else if Ascii.eqb c ","%char then Some (LIdle, [TComma])
  else if Ascii.eqb c "-"%char then Some (LIdle, [TMinus])
  else if Ascii.eqb c " "%char || Ascii.eqb c tab then Some (LIdle, [])
  else if Ascii.eqb c squote || Ascii.eqb c dquote then Some (LStr c [], [])
  else match digit c Decimal.Nil with
       | Some acc => Some (LNum acc, [])
       | None => None
       end.

Definition lex_step (st : lstate) (c : ascii)
  : option (lstate * list token) :=
  match st with
  | LIdle => idle_step c
  | LNum acc =>
      match digit c acc with
      | Some acc' => Some (LNum acc', [])
      | None =>
          match number acc, idle_step c with
          | Some n, Some (st', out) => Some (st', TNum n :: out)
          | _, _ => None
          end
      end
  | LStr q acc =>
      if Ascii.eqb c q then Some (LIdle, [TStr (rev acc)])
      else if Ascii.eqb c bslash then Some (LEsc q acc, [])
      else if Ascii.eqb c nl then None
      else Some (LStr q (c :: acc), [])
  | LEsc q acc =>
      if Ascii.eqb c bslash || Ascii.eqb c squote || Ascii.eqb c dquote
      then Some (LStr q (c :: acc), [])
      else if Ascii.eqb c "n"%char then Some (LStr q (nl :: acc), [])
      else if Ascii.eqb c "r"%char then Some (LStr q (cr :: acc), [])
      else if Ascii.eqb c "t"%char then Some (LStr q (tab :: acc), [])
      else if Ascii.eqb c "x"%char then Some (LHex1 q acc, [])
      else None
  | LHex1 q acc =>
      match hex_value c with
      | Some hi => Some (LHex2 q acc hi, [])
      | None => None
      end
  | LHex2 q acc hi =>
      match hex_value c with
      | Some lo => Some (LStr q (ascii_of_nat (16 * hi + lo) :: acc), [])
      | None => None
      end
  end.

(** The scanner loop: the state after the text and the tokens found. *)
Fixpoint scan (st : lstate) (s : list ascii) : option (lstate * list token) :=
  match s with
  | [] => Some (st, [])
  | c :: s' =>
      match lex_step st c with
      | Some (st', out) =>
          match scan st' s' with
          | Some (st'', out') => Some (st'', out ++ out')
          | None => None
          end
      | None => None
      end
  end.

(** At the end of the text a number may be pending; an open string is
    an error. *)
Definition finish (st : lstate) : option (list token) :=
  match st with
  | LIdle => Some []
  | LNum acc => option_map (fun n => [TNum n]) (number acc)
  | _ => None
  end.

Definition lex (s : list ascii) : option (list token) :=
  match scan LIdle s with
  | Some (st, out) => option_map (app out) (finish st)
  | None => None
  end.

(** *** Reading back: a list of lists of atoms *)

(** [more] says that an item may start here (after a bracket or a
    comma); [neg] that a minus sign waits for its number. *)
Inductive pstate : Type :=
| PStart
| POuter (entries : list entry) (more : bool)
| PInner (entries : list entry) (atoms : list atom) (more neg : bool)
| PDone (entries : list entry).

Definition parse_step (st : pstate) (t : token) : option pstate :=
  match st, t with
  | PStart, TLbr => Some (POuter [] true)
  | POuter es true, TLbr => Some (PInner es [] true false)
  | POuter es false, TComma => Some (POuter es true)
  | POuter es _, TRbr => Some (PDone es)
  | PInner es ats true false, TMinus => Some (PInner es ats true true)
  | PInner es ats true neg, TNum n =>
      let z := Z.of_N n in
      Some (PInner es (ats ++ [AInt (if neg then - z else z)]) false false)
  | PInner es ats true false, TStr s =>
      Some (PInner es (ats ++ [AStr (string_of_list_ascii s)]) false false)
  | PInner es ats false false, TComma => Some (PInner es ats true false)
  | PInner es ats _ false, TRbr => Some (POuter (es ++ [ats]) false)
  | _, _ => None
  end.

Fixpoint parse (st : pstate) (ts : list token) : option (list entry) :=
  match ts with
  | [] => match st with PDone es => Some es | _ => None end
  | t :: ts' =>
      match parse_step st t with
      | Some st' => parse st' ts'
      | None => None
      end
  end.

(** [eval(text)] on the fragment. *)
Definition eval (text : list ascii) : option (list entry) :=
  match lex text with
  | Some ts => parse PStart ts
  | None => None
  end.

(** *** The tokens of a printed record

    What the scanner is expected to find in [repr data]; used to state
    that printing and reading back agree. *)

Definition tokens_atom (a : atom) : list token :=
  match a with
  | AInt z =>
      if z <? 0 then [TMinus; TNum (Z.abs_N z)] else [TNum (Z.abs_N z)]
  | AStr s => [TStr (chars s)]
  end.

Fixpoint tokens_join (items : list (list token)) : list token :=
  match items with
  | [] => []
  | [x] => x
  | x :: rest => x ++ TComma :: tokens_join rest
  end.

Definition tokens_list (items : list (list token)) : list token :=
  TLbr :: tokens_join items ++ [TRbr].

Definition tokens_entry (e : entry) : list token :=
  tokens_list (map tokens_atom e).

Definition tokens (data : list entry) : list token :=
  tokens_list (map tokens_entry data).

(** *** Well-formed lines

    Every line but the last ends in a newline and holds no other one;
    the last line may lack the newline but is not empty. *)

Inductive lines_ok : list (list ascii) -> Prop :=
| lines_ok_nil : lines_ok []
| lines_ok_last (l : list ascii) :
    l <> [] -> ~ In nl l -> lines_ok [l]
| lines_ok_cons (l : list ascii) (ls : list (list ascii)) :
    ~ In nl l -> lines_ok ls -> lines_ok ((l ++ [nl]) :: ls).

(** What may follow an item of a list, and its token. *)
Definition delim (c : ascii) (t : token) : Prop :=
  (c = ","%char /\ t = TComma) \/ (c = "]"%char /\ t = TRbr).

(** Text without a raw newline. *)
Definition clean (s : list ascii) : Prop := Forall (fun c => c <> nl) s.

End Text.

(** ** Calibration and start-up *)

Definition pose_names : list string :=
  ["MIDDLE"; "LEFT"; "RIGHT"; "UP"; "DOWN"]%string.

(** One turn of the loop in [calibrate]: sample both axes once and
    build the entry of the pose.  [32767.5] is [65535 / 2]. *)
Definition calibrate_pose (direction : string) : M entry :=
  aval1 <- a1_read_u16 ;;
  aval2 <- a2_read_u16 ;;
  let diff1 := Qabs ((65535 # 2) - inject_Z aval1) in
  let diff2 := Qabs ((65535 # 2) - inject_Z aval2) in
  let '(data, axis) :=
    if Py.ltb diff2 diff1 then (aval1, 1) else (aval2, 2) in
  if String.eqb direction "MIDDLE"
  then ret [AStr direction; AInt 1; AInt aval1; AInt 2; AInt aval2]
  else ret [AStr direction; AInt axis; AInt data].

Fixpoint calibrate_loop (names : list string) (cal_data : list entry)
  : M (list entry) :=
  match names with
  | [] => ret cal_data
  | direction :: rest =>
      e <- calibrate_pose direction ;;
      calibrate_loop rest (cal_data ++ [e])
  end.

(** [l[i] = x] *)
Definition setitem {A : Type} (l : list A) (i : Z) (x : A) : result (list A) :=
  let n := Z.of_nat (length l) in
  let k := if i <? 0 then i + n else i in
  if (k <? 0) || (n <=? k) then Raise IndexError
  else Ok (<[Z.to_nat k := x]> l).

(** The [try] block of [calibrate].  Any exception ends in the
    [except] branch, which only prints; the file is then as it was. *)
Definition rewrite_file (cal_data : list entry) : M unit := fun w =>
  let lines := Text.readlines (file_text w) in
  match setitem lines 1 (Text.repr cal_data ++ [Text.nl]) with
  | Ok lines' =>
      if file_writable w
      then Ok (tt, {| adc1 := adc1 w; adc2 := adc2 w; pin := pin w;
                      file_text := concat lines';
                      file_writable := file_writable w |})
      else Ok (tt, w)
  | Raise _ => Ok (tt, w)
  end.

(** [calibrate] leaves the new record in [self.cal_data]; the model
    returns it. *)
Definition calibrate : M (list entry) :=
  cal_data <- calibrate_loop pose_names [] ;;
  _ <- rewrite_file cal_data ;;
  ret cal_data.

(** The second line of the file, stripped, as [__init__] reads it. *)
Definition second_line (text : list ascii) : list ascii :=
  let (_, rest) := Text.readline text in
  let (line, _) := Text.readline rest in
  Text.strip line.

(** [__init__] after the file has been found. *)
Definition init (cfg : Settings) : M Joystick := fun w =>
  match Text.eval (second_line (file_text w)) with
  | None => Raise OSError
  | Some cal_data =>
      (cal_data' <- match cal_data with
                    | [] => calibrate
                    | _ => ret cal_data
                    end ;;
       c <- lift (load_calib cfg cal_data') ;;
       ret {| settings := cfg; calib := c |}) w
  end.

(** The specification's words for the numeric part. *)

Module Spec.

Local Open Scope Q_scope.

(** "clamp result to [lo, hi]" *)
Definition clamp (lo hi x : Q) : Q :=
  if Py.ltb x lo then lo else if Py.ltb hi x then hi else x.

(** "[low_bound = round(center * (1 - deadzone/100))],
    [high_bound = round(center * (1 + deadzone/100))]" *)
Definition band (center deadzone : Z) : list Z :=
  [ Py.round (inject_Z center * (1 - inject_Z deadzone / 100));
    center;
    Py.round (inject_Z center * (1 + inject_Z deadzone / 100)) ].

(** "[percent = (raw - high) / (extreme_raw - high) * 100]",
    clamped and rounded. *)
Definition percent_above (raw high extreme_raw : Z) : Z :=
  Py.round (clamp 0 100
    ((inject_Z raw - inject_Z high)
     / (inject_Z extreme_raw - inject_Z high) * 100)).

(** "[percent = (low - raw) / (low - extreme_raw) * 100]",
    clamped and rounded. *)
Definition percent_below (raw low extreme_raw : Z) : Z :=
  Py.round (clamp 0 100
    ((inject_Z low - inject_Z raw)
     / (inject_Z low - inject_Z extreme_raw) * 100)).



(** "Outside the deadzone, and with extreme_raw strictly beyond the
    corresponding deadzone bound": the sample and the extreme lie on
    the same side of the band. *)
Definition outward (low high extreme_raw raw : Z) : Prop :=
  (high < extreme_raw /\ high < raw)%Z \/ (extreme_raw < low /\ raw < low)%Z.


End Spec.

(** ** A worked configuration

    The scenario of the specification: centre 32768 on both axes,
    extremes 10000 and 55000, deadzone 3 %, three samples per read. *)

Module Demo.

Definition cfg : Settings := {| samples := 3; deadzone := 3; at_ := 10 |}.

Definition record : list entry :=
  [ [AStr "MIDDLE"; AInt 1; AInt 32768; AInt 2; AInt 32768];
    [AStr "LEFT"; AInt 1; AInt 10000];
    [AStr "RIGHT"; AInt 1; AInt 55000];
    [AStr "UP"; AInt 2; AInt 10000];
    [AStr "DOWN"; AInt 2; AInt 55000] ].

Definition cal : Calib :=
  {| middle1 := 32768; middle1_range := [31785; 32768; 33751];
     middle2 := 32768; middle2_range := [31785; 32768; 33751];
     middle := [[31785; 32768; 33751]; [31785; 32768; 33751]];
     leftval := AInt 10000; leftaxis := AInt 1;
     rightval := AInt 55000; rightaxis := AInt 1;
     upval := AInt 10000; upaxis := AInt 2;
     downval := AInt 55000; downaxis := AInt 2 |}.

Definition stick : Joystick := {| settings := cfg; calib := cal |}.

Definition steady (v : Z) : Channel := {| feed := fun _ => v; pos := 0 |}.

Definition text : list ascii :=
  Text.chars "# Calibration (will be automatically written)"
  ++ [Text.nl; "["%char; "]"%char; Text.nl]
  ++ Text.chars "# Created by Tueftler.py" ++ [Text.nl].

(** The stick held at [x], [y] with the button at level [b]. *)
Definition world (x y b : Z) : World :=
  {| adc1 := steady x; adc2 := steady y; pin := steady b;
     file_text := text; file_writable := true |}.

(** The same world after [n1], [n2], [nb] reads of the three inputs. *)
Definition later (x y b : Z) (n1 n2 nb : nat) : World :=
  {| adc1 := {| feed := fun _ => x; pos := n1 |};
     adc2 := {| feed := fun _ => y; pos := n2 |};
     pin := {| feed := fun _ => b; pos := nb |};
     file_text := text; file_writable := true |}.

End Demo.

(** ** The file search

    The file system is a tree; [os.listdir] hands back the entries of a
    directory in the order of the list. *)

#[local] Unset Elimination Schemes.

Inductive node : Type :=
| File (text : list ascii)
| Dir (entries : list (string * node)).

#[local] Set Elimination Schemes.

(** [os.stat(path)[0]]: the file type bits of the mode. *)
Definition st_mode (n : node) : Z :=
  match n with
  | File _ => 0x8000
  | Dir _ => 0x4000
  end.

(** [open(path, "r").readline()]; a directory cannot be opened. *)
Definition open_readline (n : node) : result (list ascii) :=
  match n with
  | File text => Ok (fst (Text.readline text))
  | Dir _ => Raise OSError
  end.

Fixpoint starts_with (p s : list ascii) : bool :=
  match p, s with
  | [], _ => true
  | _ :: _, [] => false
  | a :: p', b :: s' => Ascii.eqb a b && starts_with p' s'
  end.

(** [s.endswith(suffix)] *)
Definition endswith (s suffix : string) : bool :=
  starts_with (rev (Text.chars suffix)) (rev (Text.chars s)).

Definition default_first_line : string :=
  "# Calibration (will be automatically written)".

Definition default_file_type : string := ".py".

(** The loop of [find_file] over the entries of the directory at
    [path]; [inner] is the call [find_file(newpath)].  [None] is the
    result of falling off the end of the loop. *)
Definition find_each (inner : node -> string -> result (option string))
    (path first_line file_type : string)
  : list (string * node) -> result (option string) :=
  fix each (es : list (string * node)) : result (option string) :=
    match es with
    | [] => Ok None
    | (entry, n) :: rest =>
        let newpath := (path ++ "/" ++ entry)%string in
        hit <~ (if endswith entry file_type
                then line <~ open_readline n ;;
                     Ok (String.eqb (string_of_list_ascii (Text.strip line))
                                    first_line)
                else Ok false) ;;
        if hit then Ok (Some newpath)
        else if negb (Z.land (st_mode n) 0x4000 =? 0) then
          return_val <~ inner n newpath ;;
          match return_val with
          | Some found =>
              if String.eqb found "" then each rest else Ok (Some found)
          | None => each rest
          end
        else each rest
    end.

(** [find_file(path, first_line, file_type)], with [d] the directory
    at [path].  The inner call passes [newpath] alone, so that below
    the starting directory the two defaults apply. *)
Fixpoint find_file (d : node) (path first_line file_type : string)
  : result (option string) :=
  match d with
  | File _ => Raise OSError
  | Dir entries =>
      find_each
        (fun n newpath =>
           find_file n newpath default_first_line default_file_type)
        path first_line file_type entries
  end.

(** [reaches d names n]: following [names] downwards from the directory
    [d] leads to [n]. *)
Inductive reaches : node -> list string -> node -> Prop :=
| reaches_here (d : node) : reaches d [] d
| reaches_down (entries : list (string * node)) (name : string)
    (child : node) (names : list string) (n : node) :
    In (name, child) entries -> reaches child names n ->
    reaches (Dir entries) (name :: names) n.

(** The path text of a list of names below [path]. *)
Fixpoint below (path : string) (names : list string) : string :=
  match names with
  | [] => path
  | name :: rest => below (path ++ "/" ++ name)%string rest
  end.

(** A file that the search accepts: its name ends in [file_type] and
    its first line, stripped, is [first_line]. *)
Definition accepted (first_line file_type name : string) (n : node) : Prop :=
  exists text,
    n = File text /\
    endswith name file_type = true /\
    string_of_list_ascii (Text.strip (fst (Text.readline text))) = first_line.

(** The first line and the file type that decide at a given depth:
    the arguments of the call in the starting directory, the defaults
    below it. *)
Definition deciding (first_line file_type : string) (above : list string)
  : string * string :=
  match above with
  | [] => (first_line, file_type)
  | _ :: _ => (default_first_line, default_file_type)
  end.

(** [found_by d path first_line file_type p]: the path text [p] names
    a file below [d] that is accepted at its depth. *)
Definition found_by (d : node) (path first_line file_type p : string)
  : Prop :=
  exists (above : list string) (name : string) (n : node),
    reaches d (above ++ [name]) n /\
    p = below path (above ++ [name]) /\
    accepted (fst (deciding first_line file_type above))
             (snd (deciding first_line file_type above)) name n.

(** ** The polling coroutines

    [await asyncio.sleep_ms(self.at)] hands control to the scheduler and
    changes nothing that the methods read; it is a silent step here.
    The loops may run for ever, so they carry a bound on the number of
    polls: [None] means that the bound was reached. *)

Fixpoint button_waiter (polls : nat) : M (option unit) :=
  match polls with
  | O => ret None
  | S polls' =>
      b <- button ;;
      if b then button_waiter polls' else ret (Some tt)
  end.

(** [not val] is false for a non-empty string and for a two-item list. *)
Definition truthy (val : answer) : bool :=
  match val with
  | ANone => false
  | AName s => negb (String.eqb s "")
  | APair _ _ => true
  end.

Fixpoint get_waiter (self : Joystick) (as_bool : bool) (polls : nat)
    (val : answer) : M (option answer) :=
  if truthy val then ret (Some val)
  else
    match polls with
    | O => ret None
    | S polls' =>
        b <- button ;;
        val' <- (if b then ret (AName "button")
                 else max_direction self as_bool) ;;
        get_waiter self as_bool polls' val'
    end.

(** ** Auxiliary notions for the properties *)

(** The sum of the next [n] readings of a channel. *)
Fixpoint window (c : Channel) (n : nat) : Z :=
  match n with
  | O => 0
  | S n' => sample c mod 65536 + window (advance c) n'
  end.

(** The shape that [load_calib] asks of a record: five entries or
    more, ints at positions 2 and 4 of the first, three fields or more
    in the next four. *)
Definition int_at (e : entry) (k : nat) : bool :=
  match e !! k with
  | Some (AInt _) => true
  | _ => false
  end.

Definition loadable (data : list entry) : bool :=
  match data with
  | e0 :: e1 :: e2 :: e3 :: e4 :: _ =>
      int_at e0 2 && int_at e0 4
      && (3 <=? length e1)%nat && (3 <=? length e2)%nat
      && (3 <=? length e3)%nat && (3 <=? length e4)%nat
  | _ => false
  end.

(** The calibration file is the same in both worlds. *)
Definition same_file (w w' : World) : Prop :=
  file_text w' = file_text w /\ file_writable w' = file_writable w.

(** * Properties *)

(** ** Arithmetic of the built-ins *)

Section Arithmetic.

Local Open Scope Q_scope.

Lemma ltb_lt (x y : Q) : Py.ltb x y = true <-> x < y.
Proof. unfold Py.ltb, Qlt. apply Z.ltb_lt. Qed.

Lemma ltb_ge (x y : Q) : Py.ltb x y = false <-> y <= x.
Proof. unfold Py.ltb, Qle. apply Z.ltb_ge. Qed.

(** [round] picks the floor or the integer above it. *)
Lemma round_cases (x : Q) :
  let f := Qfloor x in
  (x - inject_Z f < 1 # 2 /\ Py.round x = f) \/
  (1 # 2 < x - inject_Z f /\ Py.round x = (f + 1)%Z) \/
  (x - inject_Z f == 1 # 2 /\
   Py.round x = if Z.even f then f else (f + 1)%Z).
Proof.
  intros f. unfold Py.round. fold f.
  destruct (x - inject_Z f ?= 1 # 2) eqn:E.
  - right. right. split; [now apply (proj2 (Qeq_alt _ _)) | reflexivity].
  - left. split; [now apply (proj2 (Qlt_alt _ _)) | reflexivity].
  - right. left. split; [now apply (proj2 (Qgt_alt _ _)) | reflexivity].
Qed.

Lemma round_compat (x y : Q) : x == y -> Py.round x = Py.round y.
Proof.
  intros H. unfold Py.round.
  rewrite (Qfloor_comp _ _ H).
  assert (E : x - inject_Z (Qfloor y) == y - inject_Z (Qfloor y))
    by now rewrite H.
  now rewrite (Qcompare_comp _ _ E (1 # 2) (1 # 2) (Qeq_refl _)).
Qed.

Lemma round_inject (z : Z) : Py.round (inject_Z z) = z.
Proof.
  unfold Py.round. rewrite Qfloor_Z.
  replace (inject_Z z - inject_Z z ?= 1 # 2) with Lt; [reflexivity |].
  symmetry. apply (proj1 (Qlt_alt _ _)). generalize (inject_Z z). intros q. lra.
Qed.

Lemma round_mono (x y : Q) : x <= y -> (Py.round x <= Py.round y)%Z.
Proof.
  intros H.
  pose proof (Qfloor_resp_le _ _ H) as Hf.
  pose proof (Qfloor_le x) as Hx1. pose proof (Qlt_floor x) as Hx2.
  pose proof (Qfloor_le y) as Hy1. pose proof (Qlt_floor y) as Hy2.
  rewrite inject_Z_plus in Hx2, Hy2.
  destruct (round_cases x) as [[Hx ->] | [[Hx ->] | [Hx ->]]];
    destruct (round_cases y) as [[Hy ->] | [[Hy ->] | [Hy ->]]];
    repeat match goal with |- context [Z.even ?f] => destruct (Z.even f) eqn:? end;
    try lia;
    destruct (Z.eq_dec (Qfloor x) (Qfloor y)) as [E | E]; try lia;
    try (exfalso; rewrite E in *; try congruence; lra).
Qed.

End Arithmetic.

Section Clamp.

Local Open Scope Q_scope.

Lemma round_clamp (x : Q) :
  Py.round (Py.min 100 (Py.max 0 x)) = Py.round (Spec.clamp 0 100 x).
Proof.
  apply round_compat. unfold Py.min, Py.max, Spec.clamp.
  destruct (Py.ltb 0 x) eqn:E0; destruct (Py.ltb x 0) eqn:E1;
    destruct (Py.ltb x 100) eqn:E2; destruct (Py.ltb 100 x) eqn:E3;
    try reflexivity;
    repeat match goal with
      | H : Py.ltb _ _ = true |- _ => apply ltb_lt in H
      | H : Py.ltb _ _ = false |- _ => apply ltb_ge in H
      end;
    try (exfalso; lra); try lra;
    change (Py.ltb 0 100) with true; cbv iota; lra.
Qed.

Lemma clamp_mono (x y : Q) :
  x <= y -> Spec.clamp 0 100 x <= Spec.clamp 0 100 y.
Proof.
  intros H. unfold Spec.clamp.
  destruct (Py.ltb x 0) eqn:E1; destruct (Py.ltb 100 x) eqn:E2;
    destruct (Py.ltb y 0) eqn:E3; destruct (Py.ltb 100 y) eqn:E4;
    repeat match goal with
      | H : Py.ltb _ _ = true |- _ => apply ltb_lt in H
      | H : Py.ltb _ _ = false |- _ => apply ltb_ge in H
      end; lra.
Qed.

Lemma clamp_range (x : Q) : 0 <= Spec.clamp 0 100 x <= 100.
Proof.
  unfold Spec.clamp.
  destruct (Py.ltb x 0) eqn:E1; destruct (Py.ltb 100 x) eqn:E2;
    repeat match goal with
      | H : Py.ltb _ _ = true |- _ => apply ltb_lt in H
      | H : Py.ltb _ _ = false |- _ => apply ltb_ge in H
      end; lra.
Qed.

Lemma clamp_top (x : Q) : 100 <= x -> Spec.clamp 0 100 x == 100.
Proof.
  intros H. unfold Spec.clamp.
  destruct (Py.ltb x 0) eqn:E1; destruct (Py.ltb 100 x) eqn:E2;
    repeat match goal with
      | H : Py.ltb _ _ = true |- _ => apply ltb_lt in H
      | H : Py.ltb _ _ = false |- _ => apply ltb_ge in H
      end; lra.
Qed.

(** The quotient of the code and the quotient of the formula. *)
Lemma quotient_eq (a b c d : Z) :
  inject_Z (a - b) / inject_Z (c - d) * 100 ==
  (inject_Z a - inject_Z b) / (inject_Z c - inject_Z d) * 100.
Proof.
  unfold Z.sub. rewrite !inject_Z_plus, !inject_Z_opp. reflexivity.
Qed.

Lemma quotient_mono (a a' b : Q) :
  0 < b -> a <= a' -> a / b * 100 <= a' / b * 100.
Proof.
  intros Hb H. unfold Qdiv.
  apply Qmult_le_compat_r; [| lra].
  apply Qmult_le_compat_r; [exact H |].
  apply Qlt_le_weak, Qinv_lt_0_compat, Hb.
Qed.

Lemma quotient_full (a b : Q) : 0 < b -> b <= a -> 100 <= a / b * 100.
Proof.
  intros Hb H.
  assert (E : 1 <= a / b).
  { apply Qle_shift_div_l; [exact Hb | lra]. }
  lra.
Qed.

End Clamp.

(** ** Sampling an axis *)

Section Sampling.

Variable self : Joystick.

Lemma read_sum_a1 (n : nat) (w : World) :
  exists total w', read_sum a1_read_u16 n w = Ok (total, w') /\
    file_text w' = file_text w /\ file_writable w' = file_writable w /\
    pin w' = pin w.
Proof.
  revert w. induction n as [| n IH]; intros w; simpl.
  - exists 0, w. repeat split.
  - unfold bind at 1. simpl.
    destruct (IH {| adc1 := advance (adc1 w); adc2 := adc2 w; pin := pin w;
                     file_text := file_text w;
                     file_writable := file_writable w |})
      as (t & w' & E & H1 & H2 & H3).
    unfold bind at 1. rewrite E. simpl. eexists _, w'. repeat split; assumption.
Qed.

Lemma read_sum_a2 (n : nat) (w : World) :
  exists total w', read_sum a2_read_u16 n w = Ok (total, w') /\
    file_text w' = file_text w /\ file_writable w' = file_writable w /\
    pin w' = pin w.
Proof.
  revert w. induction n as [| n IH]; intros w; simpl.
  - exists 0, w. repeat split.
  - unfold bind at 1. simpl.
    destruct (IH {| adc1 := adc1 w; adc2 := advance (adc2 w); pin := pin w;
                     file_text := file_text w;
                     file_writable := file_writable w |})
      as (t & w' & E & H1 & H2 & H3).
    unfold bind at 1. rewrite E. simpl. eexists _, w'. repeat split; assumption.
Qed.

(** With a sample count other than zero, [axis_reader] returns. *)
Lemma axis_reader_returns (axis : atom) (w : World) :
  samples (settings self) <> 0 ->
  exists val w', axis_reader self axis w = Ok (val, w').
Proof.
  intros Hn. unfold axis_reader, bind, lift, Py.truediv.
  destruct (Z.eqb_spec (samples (settings self)) 0) as [E | _]; [contradiction |].
  destruct (atom_is axis 1).
  - destruct (read_sum_a1 (Z.to_nat (samples (settings self))) w)
      as (t & w' & -> & _). simpl. eauto.
  - destruct (read_sum_a2 (Z.to_nat (samples (settings self))) w)
      as (t & w' & -> & _). simpl. eauto.
Qed.

(** [converter] once the sample and the band of the axis are known. *)
Lemma converter_run (ax : Z) (maxval : atom) (w w' : World)
    (val low c high : Z) :
  axis_reader self (AInt ax) w = Ok (val, w') ->
  Py.index (middle (calib self)) (ax - 1) = Ok [low; c; high] ->
  converter self (AInt ax) maxval w =
  (if val >? high then
     mx <- lift (as_int maxval) ;;
     q <- lift (Py.truediv (val - high) (mx - high)) ;;
     ret (Py.round (Py.min 100 (Py.max 0 (q * 100)%Q)))
   else if val <? low then
     mx <- lift (as_int maxval) ;;
     q <- lift (Py.truediv (low - val) (low - mx)) ;;
     ret (Py.round (Py.min 100 (Py.max 0 (q * 100)%Q)))
   else ret 0) w'.
Proof.
  intros Hval Hband. unfold converter, bind, lift.
  rewrite Hval. cbn [as_int]. rewrite Hband.
  change (Py.index [low; c; high] 0) with (Ok low).
  change (Py.index [low; c; high] 2) with (Ok high).
  cbv beta iota.
  destruct (val >? high); [reflexivity |].
  destruct (val <? low); reflexivity.
Qed.

End Sampling.

(** ** The percentage of a direction *)

Lemma clamp_compat (x y : Q) :
  (x == y)%Q -> (Spec.clamp 0 100 x == Spec.clamp 0 100 y)%Q.
Proof.
  intros H. apply Qle_antisym; apply clamp_mono; rewrite H; apply Qle_refl.
Qed.

Section Percent.

Variable self : Joystick.
Variables (ax : Z) (low c high : Z).
Hypothesis Hband : Py.index (middle (calib self)) (ax - 1) = Ok [low; c; high].

Lemma converter_above (mx : Z) (w w' : World) (val : Z) :
  axis_reader self (AInt ax) w = Ok (val, w') ->
  high < val -> mx <> high ->
  converter self (AInt ax) (AInt mx) w =
  Ok (Spec.percent_above val high mx, w').
Proof.
  intros Hval Hgt Hne. rewrite (converter_run self ax _ w w' val low c high Hval Hband).
  destruct (Z.gtb_spec val high) as [_ | ?]; [| lia].
  unfold bind, lift, as_int, Py.truediv, ret.
  destruct (Z.eqb_spec (mx - high) 0) as [? | _]; [lia |].
  unfold Spec.percent_above. rewrite round_clamp.
  f_equal. f_equal. apply round_compat, clamp_compat, quotient_eq.
Qed.

Lemma converter_below (mx : Z) (w w' : World) (val : Z) :
  axis_reader self (AInt ax) w = Ok (val, w') ->
  low <= high -> val < low -> mx <> low ->
  converter self (AInt ax) (AInt mx) w =
  Ok (Spec.percent_below val low mx, w').
Proof.
  intros Hval Hord Hlt Hne. rewrite (converter_run self ax _ w w' val low c high Hval Hband).
  destruct (Z.gtb_spec val high) as [? | _]; [lia |].
  destruct (Z.ltb_spec val low) as [_ | ?]; [| lia].
  unfold bind, lift, as_int, Py.truediv, ret.
  destruct (Z.eqb_spec (low - mx) 0) as [? | _]; [lia |].
  unfold Spec.percent_below. rewrite round_clamp.
  f_equal. f_equal. apply round_compat, clamp_compat, quotient_eq.
Qed.

Lemma converter_inside (maxval : atom) (w w' : World) (val : Z) :
  axis_reader self (AInt ax) w = Ok (val, w') ->
  low <= val <= high ->
  converter self (AInt ax) maxval w = Ok (0, w').
Proof.
  intros Hval Hin. rewrite (converter_run self ax _ w w' val low c high Hval Hband).
  destruct (Z.gtb_spec val high) as [? | _]; [lia |].
  destruct (Z.ltb_spec val low) as [? | _]; [lia |].
  reflexivity.
Qed.

End Percent.

(** ** Growth and saturation of the percentage *)

Section Growth.

Local Open Scope Q_scope.

Lemma inject_lt (a b : Z) : (a < b)%Z -> 0 < inject_Z b - inject_Z a.
Proof. intros H. rewrite Zlt_Qlt in H. lra. Qed.

Lemma inject_le (a b : Z) : (a <= b)%Z -> inject_Z a <= inject_Z b.
Proof. intros H. now rewrite Zle_Qle in H. Qed.

Lemma percent_range (x : Q) : (0 <= Py.round (Spec.clamp 0 100 x) <= 100)%Z.
Proof.
  destruct (clamp_range x) as [H0 H1].
  apply round_mono in H0. apply round_mono in H1.
  change (Py.round 0) with 0%Z in H0. change (Py.round 100) with 100%Z in H1.
  lia.
Qed.

Lemma percent_above_mono (v1 v2 high mx : Z) :
  (high < mx)%Z -> (v1 <= v2)%Z ->
  (Spec.percent_above v1 high mx <= Spec.percent_above v2 high mx)%Z.
Proof.
  intros Hmx Hv. unfold Spec.percent_above.
  apply round_mono, clamp_mono, quotient_mono.
  - now apply inject_lt.
  - apply inject_le in Hv. lra.
Qed.

Lemma percent_above_full (v high mx : Z) :
  (high < mx)%Z -> (mx <= v)%Z -> Spec.percent_above v high mx = 100%Z.
Proof.
  intros Hmx Hv. unfold Spec.percent_above.
  change 100%Z with (Py.round 100).
  apply round_compat, clamp_top, quotient_full.
  - now apply inject_lt.
  - apply inject_le in Hv. lra.
Qed.

Lemma percent_below_mono (v1 v2 low mx : Z) :
  (mx < low)%Z -> (v2 <= v1)%Z ->
  (Spec.percent_below v1 low mx <= Spec.percent_below v2 low mx)%Z.
Proof.
  intros Hmx Hv. unfold Spec.percent_below.
  apply round_mono, clamp_mono, quotient_mono.
  - now apply inject_lt.
  - apply inject_le in Hv. lra.
Qed.

Lemma percent_below_full (v low mx : Z) :
  (mx < low)%Z -> (v <= mx)%Z -> Spec.percent_below v low mx = 100%Z.
Proof.
  intros Hmx Hv. unfold Spec.percent_below.
  change 100%Z with (Py.round 100).
  apply round_compat, clamp_top, quotient_full.
  - now apply inject_lt.
  - apply inject_le in Hv. lra.
Qed.

End Growth.

(** ** The deadzone band *)

Section Band.

Local Open Scope Q_scope.

(** A factor that is a whole number of hundredths is left as it is by
    [round(_, 2)]. *)
Lemma factor_exact (k : Z) :
  Py.round_nd (inject_Z k / 100) 2 == inject_Z k / 100.
Proof.
  unfold Py.round_nd. change (10 ^ Z.of_nat 2)%Z with 100%Z.
  assert (E : inject_Z k / 100 * inject_Z 100 == inject_Z k) by (field; discriminate).
  rewrite (round_compat _ _ E), round_inject. reflexivity.
Qed.

Lemma scaled_under (c d : Z) :
  scaled c (Py.round_nd (inject_Z (100 - d) / 100) 2) =
  Py.round (inject_Z c * (1 - inject_Z d / 100)).
Proof.
  unfold scaled. apply round_compat. rewrite factor_exact.
  unfold Z.sub. rewrite inject_Z_plus, inject_Z_opp. field.
Qed.

Lemma scaled_over (c d : Z) :
  scaled c (Py.round_nd (inject_Z (100 + d) / 100) 2) =
  Py.round (inject_Z c * (1 + inject_Z d / 100)).
Proof.
  unfold scaled. apply round_compat. rewrite factor_exact.
  rewrite inject_Z_plus. field.
Qed.

(** For a centre and a deadzone that are not negative the band is in
    order around the centre. *)
Lemma band_ordered (c d low high : Z) :
  (0 <= c)%Z -> (0 <= d)%Z ->
  Spec.band c d = [low; c; high] -> (low <= c <= high)%Z.
Proof.
  intros Hc Hd H. injection H as <- <-.
  apply inject_le in Hc. apply inject_le in Hd.
  change (inject_Z 0) with 0 in Hc, Hd.
  assert (Hp : 0 <= inject_Z c * (inject_Z d / 100)).
  { apply Qmult_le_0_compat; [exact Hc |]. apply Qle_shift_div_l; lra. }
  rewrite <- (round_inject c) at 2 3.
  split; apply round_mono; lra.
Qed.

End Band.

Section Load.

Variable cfg : Settings.

Lemma load_calib_ranges (data : list entry) (cal : Calib) :
  load_calib cfg data = Ok cal ->
  exists c1 c2 : Z,
    cell data 0 2 = Ok (AInt c1) /\
    cell data 0 4 = Ok (AInt c2) /\
    middle1_range cal = Spec.band c1 (deadzone cfg) /\
    middle2_range cal = Spec.band c2 (deadzone cfg) /\
    middle cal = [Spec.band c1 (deadzone cfg); Spec.band c2 (deadzone cfg)].
Proof.
  unfold load_calib, rbind. intros H.
  destruct (cell data 0 2) as [[c1 | ?] | ?]; try discriminate.
  destruct (cell data 0 4) as [[c2 | ?] | ?]; try discriminate.
  cbn [as_int] in H.
  repeat match type of H with
    | match ?r with Ok _ => _ | Raise _ => _ end = _ =>
        destruct r; [| discriminate]
    end.
  injection H as <-. cbn.
  exists c1, c2. unfold Spec.band.
  rewrite !scaled_under, !scaled_over. repeat split.
Qed.

(** A record of the shape that [calibrate] builds always loads. *)
Lemma load_calib_returns (n0 n1 n2 n3 n4 : string) (i1 i2 : atom)
    (c1 c2 : Z) (la lv ra rv ua uv da dv : atom) :
  exists cal,
    load_calib cfg
      [ [AStr n0; i1; AInt c1; i2; AInt c2];
        [AStr n1; la; lv]; [AStr n2; ra; rv];
        [AStr n3; ua; uv]; [AStr n4; da; dv] ] = Ok cal /\
    leftaxis cal = la /\ leftval cal = lv /\
    rightaxis cal = ra /\ rightval cal = rv /\
    upaxis cal = ua /\ upval cal = uv /\
    downaxis cal = da /\ downval cal = dv.
Proof. eexists. cbn. repeat split. Qed.

End Load.

(** ** The claims about [converter] and [load_calib] *)

Example demo_loads : load_calib Demo.cfg Demo.record = Ok Demo.cal.
Proof. reflexivity. Qed.



(** C9.  A raw value equal to the low or to the high bound gives 0,
    whatever the extreme is: both bounds belong to the deadzone and no
    division is carried out there. *)
Theorem converter_zero_on_bounds (self : Joystick) (ax : Z) (maxval : atom)
    (w w' : World) (val low c high : Z) :
  Py.index (middle (calib self)) (ax - 1) = Ok [low; c; high] ->
  axis_reader self (AInt ax) w = Ok (val, w') ->
  low <= high ->
  val = low \/ val = high ->
  converter self (AInt ax) maxval w = Ok (0, w').
Proof.
  intros Hband Hval Hord Hat.
  apply (converter_inside self ax low c high Hband _ w w' val); [assumption | lia].
Qed.

Lemma converter_zero_on_bounds_witness :
  converter Demo.stick (AInt 1) (AInt 33751) (Demo.world 33751 32768 1) =
  Ok (0, Demo.later 33751 32768 1 3 0 0).
Proof.
  apply (converter_zero_on_bounds Demo.stick 1 (AInt 33751)
           (Demo.world 33751 32768 1) (Demo.later 33751 32768 1 3 0 0)
           33751 31785 32768 33751).
  - reflexivity.
  - reflexivity.
  - lia.
  - right. reflexivity.
Defined.

(** C4.  For samples outside the deadzone on the side of the extreme,
    the percentage does not decrease when the distance from the centre
    grows, and it is 100 as soon as the sample is at least as far from
    the centre as the extreme. *)
Theorem converter_grows (self : Joystick) (ax extreme_raw low c high : Z)
    (w1 w1' w2 w2' : World) (v1 v2 : Z) :
  Py.index (middle (calib self)) (ax - 1) = Ok [low; c; high] ->
  low <= c <= high ->
  axis_reader self (AInt ax) w1 = Ok (v1, w1') ->
  axis_reader self (AInt ax) w2 = Ok (v2, w2') ->
  Spec.outward low high extreme_raw v1 ->
  Spec.outward low high extreme_raw v2 ->
  exists p1 p2 : Z,
    converter self (AInt ax) (AInt extreme_raw) w1 = Ok (p1, w1') /\
    converter self (AInt ax) (AInt extreme_raw) w2 = Ok (p2, w2') /\
    (Z.abs (v1 - c) <= Z.abs (v2 - c) -> p1 <= p2) /\
    (Z.abs (extreme_raw - c) <= Z.abs (v2 - c) -> p2 = 100).
Proof.
  intros Hband Hc H1 H2 [[Hx Ho1] | [Hx Ho1]] [[Hx' Ho2] | [Hx' Ho2]];
    try lia.
  - exists (Spec.percent_above v1 high extreme_raw),
           (Spec.percent_above v2 high extreme_raw).
    split; [| split; [| split]].
    + apply (converter_above self ax low c high Hband _ w1 w1' v1); auto; lia.
    + apply (converter_above self ax low c high Hband _ w2 w2' v2); auto; lia.
    + intros Hd. apply percent_above_mono; lia.
    + intros Hd. apply percent_above_full; lia.
  - exists (Spec.percent_below v1 low extreme_raw),
           (Spec.percent_below v2 low extreme_raw).
    split; [| split; [| split]].
    + apply (converter_below self ax low c high Hband _ w1 w1' v1); auto; lia.
    + apply (converter_below self ax low c high Hband _ w2 w2' v2); auto; lia.
    + intros Hd. apply percent_below_mono; lia.
    + intros Hd. apply percent_below_full; lia.
Qed.

Lemma converter_grows_witness :
  exists p1 p2 : Z,
    converter Demo.stick (AInt 1) (AInt 10000) (Demo.world 15000 32768 1) =
      Ok (p1, Demo.later 15000 32768 1 3 0 0) /\
    converter Demo.stick (AInt 1) (AInt 10000) (Demo.world 9000 32768 1) =
      Ok (p2, Demo.later 9000 32768 1 3 0 0) /\
    (Z.abs (15000 - 32768) <= Z.abs (9000 - 32768) -> p1 <= p2) /\
    (Z.abs (10000 - 32768) <= Z.abs (9000 - 32768) -> p2 = 100).
Proof.
  apply (converter_grows Demo.stick 1 10000 31785 32768 33751).
  - reflexivity.
  - lia.
  - reflexivity.
  - reflexivity.
  - right. lia.
  - right. lia.
Defined.



(** The band of a loaded record is in order when centre and deadzone
    are not negative, as the claims about [converter] assume. *)
Lemma loaded_band_in_order (cfg : Settings) (data : list entry) (cal : Calib)
    (c1 c2 : Z) :
  load_calib cfg data = Ok cal ->
  cell data 0 2 = Ok (AInt c1) -> cell data 0 4 = Ok (AInt c2) ->
  0 <= deadzone cfg -> 0 <= c1 -> 0 <= c2 ->
  exists l1 h1 l2 h2 : Z,
    middle cal = [[l1; c1; h1]; [l2; c2; h2]] /\
    l1 <= c1 <= h1 /\ l2 <= c2 <= h2.
Proof.
  intros Hl E1 E2 Hd H1 H2.
  destruct (load_calib_ranges cfg data cal Hl)
    as (c1' & c2' & E1' & E2' & _ & _ & Hm).
  rewrite E1 in E1'. rewrite E2 in E2'.
  injection E1' as <-. injection E2' as <-.
  rewrite Hm. unfold Spec.band. do 4 eexists. split; [reflexivity |].
  split.
  - apply (band_ordered c1 (deadzone cfg)); [assumption | assumption | reflexivity].
  - apply (band_ordered c2 (deadzone cfg)); [assumption | assumption | reflexivity].
Qed.

(** ** Calibration poses *)

Section Pose.

Local Open Scope Q_scope.


Variable direction : string.
Hypothesis not_middle : direction <> "MIDDLE"%string.
Variable w : World.

Local Abbreviation raw1 := (sample (adc1 w) mod 65536)%Z.
Local Abbreviation raw2 := (sample (adc2 w) mod 65536)%Z.



End Pose.



(** The measured MIDDLE sample plays no part.  The stick rests at
    (30000, 40000); in the LEFT pose it reads (34000, 38000).  Axis 1
    moved more from rest, yet axis 2 is further from 32767.5 and is
    recorded. *)
Example dominant_ignores_measured_middle :
  let rest_then (a b : Z) : Channel :=
    {| feed := fun k => match k with O => a | _ => b end; pos := 0 |} in
  let w := {| adc1 := rest_then 30000 34000; adc2 := rest_then 40000 38000;
              pin := Demo.steady 1; file_text := Demo.text;
              file_writable := true |} in
  match calibrate_loop ["MIDDLE"; "LEFT"]%string [] w with
  | Ok (cal_data, _) =>
      cal_data = [ [AStr "MIDDLE"; AInt 1; AInt 30000; AInt 2; AInt 40000];
                   [AStr "LEFT"; AInt 2; AInt 38000] ]
  | Raise _ => False
  end.
Proof. reflexivity. Qed.



(** ** Button and dominant direction *)

(** C5.  When the pin reads its pressed level 0, [get] returns
    ["button"] without sampling the stick, whatever [as_bool] is; at any
    other level it returns what [max_direction(as_bool)] returns. *)
Theorem get_button_first (self : Joystick) (as_bool : bool) (w : World) :
  (sample (pin w) mod 2 = 0 ->
   get self as_bool w = Ok (AName "button", after_reads 0 0 1 w)) /\
  (sample (pin w) mod 2 <> 0 ->
   get self as_bool w = max_direction self as_bool (after_reads 0 0 1 w)).
Proof.
  unfold get, button, bind, btn_value, ret. split; intros H.
  - rewrite H. reflexivity.
  - apply Z.eqb_neq in H. rewrite H. reflexivity.
Qed.

Example get_pressed_while_deflected :
  get Demo.stick true (Demo.world 9000 32768 0) =
  Ok (AName "button", Demo.later 9000 32768 0 0 0 1).
Proof. reflexivity. Qed.

Example get_released_while_deflected :
  get Demo.stick true (Demo.world 9000 32768 1) =
  Ok (AName "left", Demo.later 9000 32768 1 6 6 1).
Proof. reflexivity. Qed.

Section Sorting.

Local Abbreviation key x := (int_of (snd x)).

Lemma sort_desc_nil (l : list (string * reading)) :
  sort_desc l = [] -> l = [].
Proof.
  destruct l as [| x l]; [reflexivity |]. simpl.
  destruct (sort_desc l) as [| y s]; simpl; [discriminate |].
  destruct (int_of (snd y) >? int_of (snd x)); discriminate.
Qed.

(** The head of the sorted list is the first entry of the list whose
    key is the largest. *)
Lemma sort_desc_head (l : list (string * reading)) (h : string * reading)
    (t : list (string * reading)) :
  sort_desc l = h :: t ->
  exists i : nat,
    l !! i = Some h /\
    (forall j y, l !! j = Some y -> key y <= key h) /\
    (forall j y, (j < i)%nat -> l !! j = Some y -> key y < key h).
Proof.
  revert h t. induction l as [| x l IH]; intros h t; simpl; [discriminate |].
  destruct (sort_desc l) as [| h' t'] eqn:E.
  - apply sort_desc_nil in E. subst l. simpl. intros [= <- <-].
    exists 0%nat. split; [reflexivity |]. split.
    + intros [| j] y; simpl; [intros [= <-]; lia | discriminate].
    + intros j y Hj. lia.
  - destruct (IH h' t' eq_refl) as (i & Hi & Hmax & Hfirst).
    simpl.
    destruct (Z.gtb_spec (key h') (key x)) as [Hgt | Hle]; intros [= <- <-].
    + exists (S i). split; [exact Hi |]. split.
      * intros [| j] y; simpl; [intros [= <-]; lia | apply Hmax].
      * intros [| j] y Hj; simpl; [intros [= <-]; lia |].
        apply Hfirst. lia.
    + exists 0%nat. split; [reflexivity |]. split.
      * intros [| j] y; simpl; [intros [= <-]; lia |].
        intros Hy. specialize (Hmax j y Hy). lia.
      * intros j y Hj. lia.
Qed.

End Sorting.

Section Dominant.

Variable self : Joystick.

Lemma converter_range (axis maxval : atom) (w w' : World) (p : Z) :
  converter self axis maxval w = Ok (p, w') -> 0 <= p <= 100.
Proof.
  unfold converter, bind, lift, ret. intros H.
  repeat match type of H with
    | match ?x with _ => _ end = _ => destruct x; try discriminate
    | (if ?b then _ else _) _ = _ => destruct b
    end;
    injection H as <- _; try lia;
    rewrite round_clamp; apply percent_range.
Qed.



End Dominant.

Lemma index_head {A : Type} (h : A) (t : list A) : Py.index (h :: t) 0 = Ok h.
Proof.
  unfold Py.index. cbn [length]. rewrite Nat2Z.inj_succ.
  change (0 <? 0) with false. cbv iota.
  destruct (Z.leb_spec (Z.succ (Z.of_nat (length t))) 0) as [H | _]; [lia |].
  reflexivity.
Qed.



(** A tie is settled by the order up, down, right, left.  Axis 1 at
    55000 is full right; with both extremes of axis 2 recorded at 55000
    the same sample there is full up and full down as well. *)
Example tie_goes_to_first :
  let cal := {| middle1 := 32768; middle1_range := [31785; 32768; 33751];
                middle2 := 32768; middle2_range := [31785; 32768; 33751];
                middle := [[31785; 32768; 33751]; [31785; 32768; 33751]];
                leftval := AInt 10000; leftaxis := AInt 1;
                rightval := AInt 55000; rightaxis := AInt 1;
                upval := AInt 55000; upaxis := AInt 2;
                downval := AInt 55000; downaxis := AInt 2 |} in
  let stick := {| settings := Demo.cfg; calib := cal |} in
  get_all_states stick (Demo.world 55000 55000 1) =
    Ok ([("button", RBool false); ("up", RInt 100); ("down", RInt 100);
         ("right", RInt 100); ("left", RInt 0)]%string,
        Demo.later 55000 55000 1 6 6 1) /\
  max_direction stick false (Demo.world 55000 55000 1) =
    Ok (APair "up" (RInt 100), Demo.later 55000 55000 1 6 6 0).
Proof. split; reflexivity. Qed.

(** ** Printing and reading back *)

Section Scanner.

Import Text.

Lemma scan_app (s1 s2 : list ascii) (st : lstate) :
  scan st (s1 ++ s2) =
  match scan st s1 with
  | Some (st', o1) =>
      match scan st' s2 with
      | Some (st'', o2) => Some (st'', o1 ++ o2)
      | None => None
      end
  | None => None
  end.
Proof.
  revert st. induction s1 as [| c s1 IH]; intros st; simpl.
  - destruct (scan st s2) as [[? ?] |]; reflexivity.
  - destruct (lex_step st c) as [[st1 o] |]; [| reflexivity].
    rewrite IH. destruct (scan st1 s1) as [[st2 o1] |]; [| reflexivity].
    destruct (scan st2 s2) as [[st3 o2] |]; [| reflexivity].
    now rewrite app_assoc.
Qed.

(** A byte of a string body, printed and scanned, is that byte. *)
Lemma scan_escape (q c : ascii) (acc : list ascii) :
  q = squote \/ q = dquote ->
  scan (LStr q acc) (escape q c) = Some (LStr q (c :: acc), []).
Proof.
  intros [-> | ->]; destruct c as [[] [] [] [] [] [] [] []];
    vm_compute; reflexivity.
Qed.

Lemma quote_for_cases (s : list ascii) :
  quote_for s = squote \/ quote_for s = dquote.
Proof. unfold quote_for. destruct (_ && _); auto. Qed.

Lemma scan_body (q : ascii) (s acc : list ascii) :
  q = squote \/ q = dquote ->
  scan (LStr q acc) (flat_map (escape q) s) = Some (LStr q (rev s ++ acc), []).
Proof.
  intros Hq. revert acc. induction s as [| c s IH]; intros acc; [reflexivity |].
  cbn [flat_map]. rewrite scan_app, (scan_escape q c acc Hq), IH.
  cbn [rev app]. now rewrite <- app_assoc.
Qed.

Lemma scan_close (q : ascii) (acc : list ascii) :
  scan (LStr q acc) [q] = Some (LIdle, [TStr (rev acc)]).
Proof. cbn. rewrite Ascii.eqb_refl. reflexivity. Qed.

Lemma scan_str (s : list ascii) :
  scan LIdle (repr_str s) = Some (LIdle, [TStr s]).
Proof.
  unfold repr_str.
  assert (Hq := quote_for_cases s). set (q := quote_for s) in *.
  change (q :: flat_map (escape q) s ++ [q])
    with ([q] ++ flat_map (escape q) s ++ [q]).
  rewrite scan_app.
  assert (E : scan LIdle [q] = Some (LStr q [], [])) by (destruct Hq as [-> | ->]; reflexivity).
  rewrite E, scan_app, (scan_body q s [] Hq), scan_close.
  now rewrite app_nil_r, rev_involutive.
Qed.

Lemma scan_silent (st st' : lstate) (c : ascii) (s : list ascii) :
  lex_step st c = Some (st', []) -> scan st (c :: s) = scan st' s.
Proof.
  intros H. cbn [scan]. rewrite H.
  destruct (scan st' s) as [[? ?] |]; reflexivity.
Qed.

Lemma scan_digits (d acc : Decimal.uint) :
  scan (LNum acc) (chars (NilEmpty.string_of_uint d)) =
  Some (LNum (Decimal.revapp d acc), []).
Proof.
  unfold chars. revert acc.
  induction d as [| d IH | d IH | d IH | d IH | d IH | d IH | d IH | d IH
                 | d IH | d IH]; intros acc; [reflexivity | ..];
    cbn [NilEmpty.string_of_uint list_ascii_of_string];
    (erewrite scan_silent by reflexivity); apply IH.
Qed.

Lemma scan_N (n : N) :
  scan LIdle (repr_N n) = Some (LNum (Decimal.rev (N.to_uint n)), []).
Proof.
  unfold repr_N, chars, Decimal.rev.
  destruct n as [| p]; [reflexivity |]. cbn [N.to_uint].
  pose proof (DecimalPos.Unsigned.to_uint_nonnil p) as Hp.
  destruct (Pos.to_uint p) as [| d | d | d | d | d | d | d | d | d | d];
    [contradiction | ..];
    cbn [NilEmpty.string_of_uint list_ascii_of_string];
    (erewrite scan_silent by reflexivity); cbn [Decimal.revapp];
    apply scan_digits.
Qed.

(** The printed digits of a number carry no leading zero. *)
Lemma to_uint_head (p : positive) (u : Decimal.uint) :
  Pos.to_uint p <> Decimal.D0 u.
Proof.
  intros E.
  assert (Hn : Decimal.unorm (Pos.to_uint p) = Pos.to_uint p).
  { rewrite <- DecimalPos.Unsigned.to_of, DecimalPos.Unsigned.of_to.
    reflexivity. }
  rewrite E in Hn. rewrite DecimalFacts.unorm_D0 in Hn.
  destruct u as [| u | u | u | u | u | u | u | u | u | u];
    [exact (DecimalPos.Unsigned.to_uint_nonzero p E) | ..];
    match type of Hn with
    | Decimal.unorm ?x = _ =>
        pose proof (DecimalFacts.nb_digits_unorm x) as Hd
    end;
    rewrite Hn in Hd; cbn [Decimal.nb_digits] in Hd;
    specialize (Hd ltac:(discriminate)); lia.
Qed.

Lemma number_printed (n : N) :
  number (Decimal.rev (N.to_uint n)) = Some n.
Proof.
  unfold number. rewrite DecimalFacts.rev_rev.
  destruct n as [| p]; [reflexivity |].
  pose proof (DecimalN.Unsigned.of_to (N.pos p)) as Hv.
  pose proof (to_uint_head p) as Hh.
  cbn [N.to_uint] in *.
  destruct (Pos.to_uint p); try (now rewrite Hv).
  exfalso. eapply Hh. reflexivity.
Qed.

Lemma scan_delim (c : ascii) (t : token) :
  delim c t -> scan LIdle [c] = Some (LIdle, [t]).
Proof. intros [[-> ->] | [-> ->]]; reflexivity. Qed.

Lemma scan_flush (acc : Decimal.uint) (n : N) (c : ascii) (t : token) :
  delim c t -> number acc = Some n ->
  scan (LNum acc) [c] = Some (LIdle, [TNum n; t]).
Proof.
  intros [[-> ->] | [-> ->]] H; cbn -[number]; rewrite H; reflexivity.
Qed.

Lemma scan_N_delim (n : N) (c : ascii) (t : token) :
  delim c t -> scan LIdle (repr_N n ++ [c]) = Some (LIdle, [TNum n; t]).
Proof.
  intros Hd. rewrite scan_app, scan_N.
  rewrite (scan_flush _ n c t Hd (number_printed n)). reflexivity.
Qed.

Lemma scan_atom (a : atom) (c : ascii) (t : token) :
  delim c t ->
  scan LIdle (repr_atom a ++ [c]) = Some (LIdle, tokens_atom a ++ [t]).
Proof.
  intros Hd. destruct a as [z | s]; cbn [repr_atom tokens_atom].
  - unfold repr_int. destruct (z <? 0).
    + change (("-"%char :: repr_N (Z.abs_N z)) ++ [c])
        with (["-"%char] ++ (repr_N (Z.abs_N z) ++ [c])).
      rewrite scan_app.
      change (scan LIdle ["-"%char]) with (Some (LIdle, [TMinus])).
      cbv beta iota.
      rewrite (scan_N_delim _ c t Hd). reflexivity.
    + apply scan_N_delim, Hd.
  - rewrite scan_app, scan_str, (scan_delim c t Hd). reflexivity.
Qed.

(** Items that scan on their own scan in a bracketed list. *)
Lemma scan_join {A : Type} (pr : A -> list ascii) (tk : A -> list token) :
  (forall a c t, delim c t ->
     scan LIdle (pr a ++ [c]) = Some (LIdle, tk a ++ [t])) ->
  forall (l : list A) (c : ascii) (t : token),
    delim c t -> l <> [] ->
    scan LIdle (join (map pr l) ++ [c]) =
    Some (LIdle, tokens_join (map tk l) ++ [t]).
Proof.
  intros Hitem l c t Hd. induction l as [| a l IH]; [contradiction |].
  intros _. destruct l as [| b l].
  - cbn [map join tokens_join]. apply Hitem, Hd.
  - change (join (map pr (a :: b :: l)))
      with (pr a ++ chars ", " ++ join (map pr (b :: l))).
    change (tokens_join (map tk (a :: b :: l)))
      with (tk a ++ TComma :: tokens_join (map tk (b :: l))).
    replace ((pr a ++ chars ", " ++ join (map pr (b :: l))) ++ [c])
      with ((pr a ++ [","%char]) ++ [" "%char]
            ++ (join (map pr (b :: l)) ++ [c]))
      by (cbn; rewrite <- !app_assoc; reflexivity).
    rewrite scan_app, (Hitem a _ TComma) by (left; split; reflexivity).
    rewrite scan_app.
    change (scan LIdle [" "%char]) with (Some (LIdle, @nil token)).
    cbv beta iota.
    rewrite IH by discriminate.
    cbn [app]. rewrite <- !app_assoc. reflexivity.
Qed.

Lemma scan_list {A : Type} (pr : A -> list ascii) (tk : A -> list token) :
  (forall a c t, delim c t ->
     scan LIdle (pr a ++ [c]) = Some (LIdle, tk a ++ [t])) ->
  forall l : list A,
    scan LIdle (repr_list (map pr l)) = Some (LIdle, tokens_list (map tk l)).
Proof.
  intros Hitem l. unfold repr_list, tokens_list.
  change ("["%char :: join (map pr l) ++ ["]"%char])
    with (["["%char] ++ (join (map pr l) ++ ["]"%char])).
  rewrite scan_app.
  change (scan LIdle ["["%char]) with (Some (LIdle, [TLbr])).
  cbv beta iota.
  destruct l as [| a l]; [reflexivity |].
  rewrite (scan_join pr tk Hitem (a :: l) "]"%char TRbr)
    by (try discriminate; right; split; reflexivity).
  reflexivity.
Qed.

Lemma scan_entry (e : entry) (c : ascii) (t : token) :
  delim c t ->
  scan LIdle (repr_entry e ++ [c]) = Some (LIdle, tokens_entry e ++ [t]).
Proof.
  intros Hd. unfold repr_entry, tokens_entry.
  rewrite scan_app, (scan_list repr_atom tokens_atom scan_atom).
  rewrite (scan_delim c t Hd). reflexivity.
Qed.

Lemma lex_repr (data : list entry) : lex (repr data) = Some (tokens data).
Proof.
  unfold lex, repr, tokens.
  rewrite (scan_list repr_entry tokens_entry scan_entry).
  cbn [finish option_map]. now rewrite app_nil_r.
Qed.

End Scanner.

Section Parser.

Import Text.

Lemma parse_atom (es : list entry) (ats : list atom) (a : atom)
    (rest : list token) :
  parse (PInner es ats true false) (tokens_atom a ++ rest) =
  parse (PInner es (ats ++ [a]) false false) rest.
Proof.
  destruct a as [z | s]; cbn [tokens_atom].
  - destruct (Z.ltb_spec z 0) as [Hneg | Hpos]; cbn [app parse parse_step];
      rewrite N2Z.inj_abs_N.
    + replace (- Z.abs z) with z by lia. reflexivity.
    + replace (Z.abs z) with z by lia. reflexivity.
  - cbn [app parse parse_step]. unfold chars.
    now rewrite string_of_list_ascii_of_string.
Qed.

Lemma parse_atoms (es : list entry) (e : entry) (ats : list atom)
    (rest : list token) :
  e <> [] ->
  parse (PInner es ats true false)
        (tokens_join (map tokens_atom e) ++ TRbr :: rest) =
  parse (POuter (es ++ [ats ++ e]) false) rest.
Proof.
  revert ats. induction e as [| a e IH]; intros ats; [contradiction |].
  intros _. destruct e as [| b e].
  - cbn [map tokens_join]. rewrite parse_atom. reflexivity.
  - change (tokens_join (map tokens_atom (a :: b :: e)))
      with (tokens_atom a ++ TComma :: tokens_join (map tokens_atom (b :: e))).
    rewrite <- app_assoc, parse_atom. cbn [app parse parse_step].
    rewrite IH by discriminate. now rewrite <- app_assoc.
Qed.

Lemma parse_entry (es : list entry) (e : entry) (rest : list token) :
  parse (POuter es true) (tokens_entry e ++ rest) =
  parse (POuter (es ++ [e]) false) rest.
Proof.
  unfold tokens_entry, tokens_list. cbn [app parse parse_step].
  destruct e as [| a e]; [reflexivity |].
  rewrite <- app_assoc. cbn [app].
  rewrite parse_atoms by discriminate. reflexivity.
Qed.

Lemma parse_entries (es data : list entry) (rest : list token) :
  data <> [] ->
  parse (POuter es true)
        (tokens_join (map tokens_entry data) ++ TRbr :: rest) =
  parse (PDone (es ++ data)) rest.
Proof.
  revert es. induction data as [| e data IH]; intros es; [contradiction |].
  intros _. destruct data as [| e' data].
  - cbn [map tokens_join]. rewrite parse_entry. reflexivity.
  - change (tokens_join (map tokens_entry (e :: e' :: data)))
      with (tokens_entry e
            ++ TComma :: tokens_join (map tokens_entry (e' :: data))).
    rewrite <- app_assoc, parse_entry. cbn [app parse parse_step].
    rewrite IH by discriminate. now rewrite <- app_assoc.
Qed.

Lemma parse_tokens (data : list entry) :
  parse PStart (tokens data) = Some data.
Proof.
  unfold tokens, tokens_list. cbn [parse parse_step].
  destruct data as [| e data]; [reflexivity |].
  rewrite parse_entries by discriminate. reflexivity.
Qed.

Lemma eval_repr (data : list entry) : eval (repr data) = Some data.
Proof. unfold eval. rewrite lex_repr. apply parse_tokens. Qed.

Lemma strip_ends (a b : ascii) (m : list ascii) :
  is_space a = false -> is_space b = false ->
  strip ((a :: m ++ [b]) ++ [nl]) = a :: m ++ [b].
Proof.
  intros Ha Hb. unfold strip.
  cbn [app lstrip]. rewrite Ha.
  change (a :: (m ++ [b]) ++ [nl]) with ((a :: m ++ [b]) ++ [nl]).
  rewrite rev_app_distr. cbn [rev app lstrip].
  change (is_space nl) with true. cbv iota.
  rewrite rev_app_distr. cbn [rev app lstrip]. rewrite Hb.
  change (b :: rev m ++ [a]) with ((b :: rev m) ++ [a]).
  rewrite rev_app_distr. cbn [rev app].
  now rewrite rev_involutive.
Qed.

Lemma strip_line (items : list (list ascii)) :
  strip (repr_list items ++ [nl]) = repr_list items.
Proof. unfold repr_list. now apply strip_ends. Qed.

End Parser.

(** C7.  A record, printed as [calibrate] writes it on line 2 and read
    back as [__init__] reads that line (strip, then [eval]), is the
    record again, entry by entry and field by field. *)
Theorem record_round_trip (data : list entry) :
  Text.eval (Text.strip (Text.repr data ++ [Text.nl])) = Some data.
Proof.
  unfold Text.repr. rewrite strip_line. apply eval_repr.
Qed.

Example demo_round_trip :
  Text.eval (Text.strip (Text.repr Demo.record ++ [Text.nl])) =
  Some Demo.record.
Proof. reflexivity. Qed.

(** ** Lines of the calibration file *)

Section Lines.

Import Text.

Lemma readlines_one (l : list ascii) :
  l <> [] -> ~ In nl l -> readlines l = [l].
Proof.
  induction l as [| c l IH]; [contradiction |]. intros _ Hnl. cbn [readlines].
  destruct (Ascii.eqb_spec c nl) as [-> | Hc]; [exfalso; apply Hnl; now left |].
  destruct l as [| c' l]; [reflexivity |].
  rewrite IH; [reflexivity | discriminate |].
  intros H. apply Hnl. now right.
Qed.

Lemma readlines_line (l rest : list ascii) :
  ~ In nl l -> readlines (l ++ nl :: rest) = (l ++ [nl]) :: readlines rest.
Proof.
  induction l as [| c l IH]; intros Hnl; cbn [app readlines].
  - now rewrite Ascii.eqb_refl.
  - destruct (Ascii.eqb_spec c nl) as [-> | Hc]; [exfalso; apply Hnl; now left |].
    rewrite IH; [reflexivity |]. intros H. apply Hnl. now right.
Qed.

Lemma readlines_ok (s : list ascii) : lines_ok (readlines s).
Proof.
  induction s as [| c s IH]; cbn [readlines]; [constructor |].
  destruct (Ascii.eqb_spec c nl) as [-> | Hc].
  - apply (lines_ok_cons [] _); [intros [] | exact IH].
  - destruct (readlines s) as [| l ls].
    + apply lines_ok_last; [discriminate |]. intros [E | []]. now apply Hc.
    + inversion IH as [| l0 Hne Hnl | l0 ls0 Hnl Hls]; subst.
      * apply lines_ok_last; [discriminate |].
        intros [E | H]; [now apply Hc | now apply Hnl].
      * apply (lines_ok_cons (c :: l0)); [| exact Hls].
        intros [E | H]; [now apply Hc | now apply Hnl].
Qed.

Lemma readlines_concat (ls : list (list ascii)) :
  lines_ok ls -> readlines (concat ls) = ls.
Proof.
  induction 1 as [| l Hne Hnl | l ls Hnl Hls IH]; cbn [concat].
  - reflexivity.
  - rewrite app_nil_r. now apply readlines_one.
  - rewrite <- app_assoc. cbn [app]. rewrite readlines_line by assumption.
    now rewrite IH.
Qed.

Lemma lines_ok_insert (ls : list (list ascii)) (i : nat) (l : list ascii) :
  lines_ok ls -> ~ In nl l -> lines_ok (<[i := l ++ [nl]]> ls).
Proof.
  intros Hls Hl. revert i.
  induction Hls as [| l0 Hne Hnl | l0 ls Hnl Hls IH]; intros [| i]; cbn.
  - constructor.
  - constructor.
  - apply lines_ok_cons; [assumption | constructor].
  - now apply lines_ok_last.
  - now apply lines_ok_cons.
  - apply lines_ok_cons; [assumption | apply IH].
Qed.

End Lines.

Section Clean.

Import Text.

Lemma clean_escape (q c : ascii) :
  q = squote \/ q = dquote -> clean (escape q c).
Proof.
  intros Hq.
  assert (E : forallb (fun x => negb (Ascii.eqb x nl)) (escape q c) = true).
  { destruct Hq as [-> | ->]; destruct c as [[] [] [] [] [] [] [] []];
      vm_compute; reflexivity. }
  apply Forall_forall. intros x Hx.
  apply list_elem_of_In in Hx.
  rewrite forallb_forall in E. specialize (E x Hx).
  intros ->. now rewrite Ascii.eqb_refl in E.
Qed.

Lemma clean_body (q : ascii) (s : list ascii) :
  q = squote \/ q = dquote -> clean (flat_map (escape q) s).
Proof.
  intros Hq. induction s as [| c s IH]; cbn [flat_map]; [constructor |].
  apply Forall_app; split; [now apply clean_escape | exact IH].
Qed.

Lemma clean_str (s : list ascii) : clean (repr_str s).
Proof.
  unfold repr_str. pose proof (quote_for_cases s) as Hq.
  assert (Hqn : quote_for s <> nl) by (destruct Hq as [-> | ->]; discriminate).
  apply Forall_cons; split; [exact Hqn |].
  apply Forall_app; split; [now apply clean_body |].
  apply Forall_cons; split; [exact Hqn | constructor].
Qed.

Lemma clean_digits (d : Decimal.uint) :
  clean (chars (NilEmpty.string_of_uint d)).
Proof.
  unfold chars.
  induction d; cbn [NilEmpty.string_of_uint list_ascii_of_string];
    [constructor | ..]; (apply Forall_cons; split; [discriminate | assumption]).
Qed.

Lemma clean_atom (a : atom) : clean (repr_atom a).
Proof.
  destruct a as [z | s]; cbn [repr_atom]; [| apply clean_str].
  unfold repr_int, repr_N. destruct (z <? 0).
  - apply Forall_cons; split; [discriminate | apply clean_digits].
  - apply clean_digits.
Qed.

Lemma clean_list (items : list (list ascii)) :
  Forall clean items -> clean (repr_list items).
Proof.
  intros H. unfold repr_list.
  apply Forall_cons; split; [discriminate |].
  apply Forall_app; split;
    [| apply Forall_cons; split; [discriminate | constructor]].
  induction H as [| x items Hx Hitems IH]; [constructor |].
  destruct items as [| y items]; [exact Hx |].
  change (join (x :: y :: items)) with (x ++ chars ", " ++ join (y :: items)).
  apply Forall_app; split; [exact Hx |].
  apply Forall_cons; split; [discriminate |].
  apply Forall_cons; split; [discriminate | exact IH].
Qed.

Lemma repr_no_newline (data : list entry) : ~ In nl (repr data).
Proof.
  assert (H : clean (repr data)).
  { apply clean_list, Forall_forall. intros x Hx.
    apply list_elem_of_In, in_map_iff in Hx. destruct Hx as (e & <- & _).
    apply clean_list, Forall_forall. intros y Hy.
    apply list_elem_of_In, in_map_iff in Hy. destruct Hy as (a & <- & _).
    apply clean_atom. }
  intros Hin. unfold clean in H. rewrite Forall_forall in H.
  apply (H nl); [now apply list_elem_of_In | reflexivity].
Qed.

End Clean.

(** ** Persisting the record *)

Section Persist.

Import Text.

Lemma calibrate_pose_file (direction : string) (w : World) :
  exists e, calibrate_pose direction w = Ok (e, after_reads 1 1 0 w).
Proof.
  unfold calibrate_pose, bind, a1_read_u16, a2_read_u16.
  cbn [adc1 adc2 pin file_text file_writable].
  destruct (Py.ltb _ _); destruct (String.eqb direction "MIDDLE");
    eexists; reflexivity.
Qed.

Lemma calibrate_loop_file (names : list string) (acc : list entry) (w : World) :
  exists cal w',
    calibrate_loop names acc w = Ok (cal, w') /\
    file_text w' = file_text w /\ file_writable w' = file_writable w.
Proof.
  revert acc w. induction names as [| d names IH]; intros acc w.
  - exists acc, w. repeat split.
  - cbn [calibrate_loop]. unfold bind.
    destruct (calibrate_pose_file d w) as [e ->].
    destruct (IH (acc ++ [e]) (after_reads 1 1 0 w)) as (cal & w' & E & Ht & Hw).
    exists cal, w'. repeat split; assumption.
Qed.

Lemma setitem_second {A : Type} (l : list A) (x : A) :
  (2 <= length l)%nat -> setitem l 1 x = Ok (<[1%nat := x]> l).
Proof.
  intros H. unfold setitem. change (1 <? 0) with false. cbv iota.
  destruct (Z.leb_spec (Z.of_nat (length l)) 1) as [Hle | _]; [lia |].
  reflexivity.
Qed.

Lemma rewrite_file_lines (cal_data : list entry) (w : World) :
  file_writable w = true ->
  (2 <= length (readlines (file_text w)))%nat ->
  exists w',
    rewrite_file cal_data w = Ok (tt, w') /\
    readlines (file_text w') =
    <[1%nat := repr cal_data ++ [nl]]> (readlines (file_text w)).
Proof.
  intros Hw Hlen. unfold rewrite_file.
  rewrite (setitem_second _ _ Hlen), Hw.
  eexists. split; [reflexivity |]. cbn [file_text].
  apply readlines_concat, lines_ok_insert;
    [apply readlines_ok | apply repr_no_newline].
Qed.

(** [calibrate] always returns: a failure to write is caught. *)
Lemma calibrate_returns (w : World) :
  exists cal w', calibrate w = Ok (cal, w').
Proof.
  unfold calibrate, bind.
  destruct (calibrate_loop_file pose_names [] w) as (cal & w1 & -> & _ & _).
  unfold rewrite_file.
  destruct (setitem _ _ _); [destruct (file_writable w1) |]; eauto.
Qed.

Lemma calibrate_lines (w : World) :
  file_writable w = true ->
  (2 <= length (readlines (file_text w)))%nat ->
  exists cal w',
    calibrate w = Ok (cal, w') /\
    readlines (file_text w') =
    <[1%nat := repr cal ++ [nl]]> (readlines (file_text w)).
Proof.
  intros Hw Hlen. unfold calibrate, bind.
  destruct (calibrate_loop_file pose_names [] w) as (cal & w1 & -> & Ht & Hw1).
  rewrite <- Ht in Hlen. rewrite <- Hw1 in Hw.
  destruct (rewrite_file_lines cal w1 Hw Hlen) as (w' & -> & E).
  exists cal, w'. split; [reflexivity |]. now rewrite E, Ht.
Qed.

(** Without two lines to start from, or without write access, the
    file stays as it is. *)
Lemma calibrate_leaves_file (w : World) :
  file_writable w = false \/ (length (readlines (file_text w)) < 2)%nat ->
  exists cal w', calibrate w = Ok (cal, w') /\ file_text w' = file_text w.
Proof.
  intros H. unfold calibrate, bind.
  destruct (calibrate_loop_file pose_names [] w) as (cal & w1 & -> & Ht & Hw1).
  unfold rewrite_file, setitem. change (1 <? 0) with false. cbv iota.
  rewrite Ht, Hw1.
  destruct (Z.leb_spec (Z.of_nat (length (readlines (file_text w)))) 1)
    as [Hle | Hgt]; cbn [orb].
  - exists cal, w1. split; [reflexivity | exact Ht].
  - destruct H as [-> | Hlt]; [| lia].
    exists cal, w1. split; [reflexivity | exact Ht].
Qed.

End Persist.

(** C8.  When [calibrate] can write and the file has at least two
    lines, the lines of the file afterwards are the lines before with
    line 2 replaced by the printed record: line 2 is that text, and
    line 1 and every line after line 2 are as they were. *)
Theorem calibrate_rewrites_line_two (w : World) :
  file_writable w = true ->
  (2 <= length (Text.readlines (file_text w)))%nat ->
  exists cal w',
    calibrate w = Ok (cal, w') /\
    Text.readlines (file_text w') =
      <[1%nat := Text.repr cal ++ [Text.nl]]> (Text.readlines (file_text w)) /\
    Text.readlines (file_text w') !! 1%nat = Some (Text.repr cal ++ [Text.nl]) /\
    (forall i : nat, i <> 1%nat ->
       Text.readlines (file_text w') !! i =
       Text.readlines (file_text w) !! i) /\
    length (Text.readlines (file_text w')) =
      length (Text.readlines (file_text w)).
Proof.
  intros Hw Hlen.
  destruct (calibrate_lines w Hw Hlen) as (cal & w' & Hc & E).
  exists cal, w'. split; [exact Hc |]. split; [exact E |]. rewrite E.
  split; [| split].
  - apply list_lookup_insert_eq. lia.
  - intros i Hi. apply list_lookup_insert_ne. congruence.
  - apply length_insert.
Qed.

Lemma calibrate_rewrites_line_two_witness :
  exists cal w',
    calibrate (Demo.world 15000 32768 1) = Ok (cal, w') /\
    Text.readlines (file_text w') =
      <[1%nat := Text.repr cal ++ [Text.nl]]> (Text.readlines Demo.text) /\
    Text.readlines (file_text w') !! 1%nat = Some (Text.repr cal ++ [Text.nl]) /\
    (forall i : nat, i <> 1%nat ->
       Text.readlines (file_text w') !! i = Text.readlines Demo.text !! i) /\
    length (Text.readlines (file_text w')) = length (Text.readlines Demo.text).
Proof.
  apply (calibrate_rewrites_line_two (Demo.world 15000 32768 1)).
  - reflexivity.
  - vm_compute. lia.
Defined.

(** ** Reading the record back at the next start *)

Section Restart.

Import Text.

Lemma readlines_nil (s : list ascii) : readlines s = [] -> s = [].
Proof.
  destruct s as [| c s]; [reflexivity |]. cbn [readlines].
  destruct (Ascii.eqb c nl); [discriminate |].
  destruct (readlines s); discriminate.
Qed.

Lemma readline_head (s l : list ascii) (ls : list (list ascii)) :
  readlines s = l :: ls ->
  exists r, readline s = (l, r) /\ readlines r = ls.
Proof.
  revert l ls. induction s as [| c s IH]; intros l ls; cbn [readlines readline];
    [discriminate |].
  destruct (Ascii.eqb c nl).
  - intros [= <- <-]. exists s. split; reflexivity.
  - destruct (readlines s) as [| l' ls'] eqn:E.
    + intros [= <- <-]. apply readlines_nil in E. subst s.
      exists []. split; reflexivity.
    + intros [= <- <-]. destruct (IH l' ls' eq_refl) as (r & -> & Hr).
      exists r. split; [reflexivity | exact Hr].
Qed.

Lemma second_line_of_lines (text l1 l2 : list ascii) (rest : list (list ascii)) :
  readlines text = l1 :: l2 :: rest -> second_line text = strip l2.
Proof.
  intros H. unfold second_line.
  destruct (readline_head _ _ _ H) as (r & -> & Hr).
  destruct (readline_head _ _ _ Hr) as (r' & -> & _).
  reflexivity.
Qed.

(** After a calibration that could write, the next start evaluates
    line 2 to the record that was produced. *)
Lemma calibrate_then_read (w : World) :
  file_writable w = true ->
  (2 <= length (readlines (file_text w)))%nat ->
  exists cal w',
    calibrate w = Ok (cal, w') /\
    eval (second_line (file_text w')) = Some cal.
Proof.
  intros Hw Hlen.
  destruct (calibrate_lines w Hw Hlen) as (cal & w' & Hc & E).
  exists cal, w'. split; [exact Hc |].
  destruct (readlines (file_text w)) as [| l1 [| l2 rest]];
    cbn [length] in Hlen; try lia.
  change (readlines (file_text w') = l1 :: (repr cal ++ [nl]) :: rest) in E.
  rewrite (second_line_of_lines _ _ _ _ E).
  unfold repr. rewrite strip_line. apply eval_repr.
Qed.

End Restart.

(** * Further properties of the code *)

(** ** Oversampling *)

Section Window.

Lemma world_eta (w : World) : after_reads 0 0 0 w = w.
Proof. destruct w. reflexivity. Qed.

Lemma iter_advance (n : nat) (c : Channel) :
  Nat.iter n advance (advance c) = Nat.iter (S n) advance c.
Proof. symmetry. apply Nat.iter_succ_r. Qed.

Lemma read_sum_window_a1 (n : nat) (w : World) :
  read_sum a1_read_u16 n w = Ok (window (adc1 w) n, after_reads n 0 0 w).
Proof.
  revert w. induction n as [| n IH]; intros w.
  - cbn [read_sum window]. unfold ret. now rewrite world_eta.
  - cbn [read_sum window]. unfold bind at 1. unfold a1_read_u16 at 1.
    unfold bind at 1. rewrite IH. unfold ret, after_reads.
    cbn [adc1 adc2 pin file_text file_writable].
    rewrite iter_advance. reflexivity.
Qed.

Lemma read_sum_window_a2 (n : nat) (w : World) :
  read_sum a2_read_u16 n w = Ok (window (adc2 w) n, after_reads 0 n 0 w).
Proof.
  revert w. induction n as [| n IH]; intros w.
  - cbn [read_sum window]. unfold ret. now rewrite world_eta.
  - cbn [read_sum window]. unfold bind at 1. unfold a2_read_u16 at 1.
    unfold bind at 1. rewrite IH. unfold ret, after_reads.
    cbn [adc1 adc2 pin file_text file_writable].
    rewrite iter_advance. reflexivity.
Qed.

Lemma window_bounds (c : Channel) (n : nat) :
  0 <= window c n <= 65535 * Z.of_nat n.
Proof.
  revert c. induction n as [| n IH]; intros c; cbn [window]; [lia |].
  specialize (IH (advance c)).
  pose proof (Z.mod_pos_bound (sample c) 65536 ltac:(lia)). lia.
Qed.

Lemma mean_bounds (total n : Z) :
  0 < n -> 0 <= total <= 65535 * n ->
  0 <= Py.round (inject_Z total / inject_Z n) <= 65535.
Proof.
  intros Hn [H0 H1].
  rewrite Zlt_Qlt in Hn. rewrite Zle_Qle in H0, H1.
  rewrite inject_Z_mult in H1.
  change (inject_Z 0) with 0%Q in Hn, H0.
  change (inject_Z 65535) with 65535%Q in H1.
  revert Hn H0 H1. generalize (inject_Z total) (inject_Z n). intros t m Hm H0 H1.
  assert (L : (0 <= t / m)%Q) by (apply Qle_shift_div_l; [exact Hm | lra]).
  assert (U : (t / m <= 65535)%Q) by (apply Qle_shift_div_r; [exact Hm | lra]).
  apply round_mono in L. apply round_mono in U.
  change (Py.round 0) with 0 in L. change (Py.round 65535) with 65535 in U.
  lia.
Qed.

End Window.

(** X1.  With a positive sample count [axis_reader] takes exactly that
    many readings from one ADC, ADC 1 for axis 1 and ADC 2 for every
    other axis value, leaves the other inputs alone, and returns the
    rounded mean of the readings, a value in 0..65535. *)
Theorem axis_reader_mean (self : Joystick) (axis : atom) (w : World) :
  0 < samples (settings self) ->
  let n := Z.to_nat (samples (settings self)) in
  let total := window (if atom_is axis 1 then adc1 w else adc2 w) n in
  let val := Py.round (inject_Z total / inject_Z (samples (settings self))) in
  axis_reader self axis w =
    Ok (val, if atom_is axis 1 then after_reads n 0 0 w
             else after_reads 0 n 0 w) /\
  0 <= val <= 65535.
Proof.
  intros Hn n total val. split.
  - unfold axis_reader, bind, lift, ret, Py.truediv.
    destruct (Z.eqb_spec (samples (settings self)) 0) as [E | _]; [lia |].
    subst val total n. destruct (atom_is axis 1).
    + rewrite read_sum_window_a1. reflexivity.
    + rewrite read_sum_window_a2. reflexivity.
  - apply mean_bounds; [exact Hn |].
    pose proof (window_bounds (if atom_is axis 1 then adc1 w else adc2 w) n).
    subst n total. rewrite Z2Nat.id in H by lia. exact H.
Qed.

Lemma axis_reader_mean_witness :
  axis_reader Demo.stick (AInt 2) (Demo.world 15000 32768 1) =
    Ok (32768, Demo.later 15000 32768 1 0 3 0) /\
  0 <= 32768 <= 65535.
Proof.
  apply (axis_reader_mean Demo.stick (AInt 2) (Demo.world 15000 32768 1)).
  reflexivity.
Defined.

(** X2.  With a sample count of zero [axis_reader] divides by zero and
    raises; with a negative count the range is empty, nothing is read
    and the result is 0. *)
Theorem axis_reader_no_samples (self : Joystick) (axis : atom) (w : World) :
  (samples (settings self) = 0 ->
   axis_reader self axis w = Raise ZeroDivisionError) /\
  (samples (settings self) < 0 -> axis_reader self axis w = Ok (0, w)).
Proof.
  split; intros H.
  - unfold axis_reader. rewrite H. cbn [Z.to_nat read_sum].
    unfold bind, ret, lift. destruct (atom_is axis 1); reflexivity.
  - unfold axis_reader, bind, lift.
    destruct (samples (settings self)) as [| p | p] eqn:E; try lia.
    cbn [Z.to_nat read_sum]. unfold ret, Py.truediv. cbn [Z.eqb].
    destruct (atom_is axis 1); reflexivity.
Qed.

Lemma axis_reader_no_samples_witness :
  axis_reader {| settings := {| samples := 0; deadzone := 3; at_ := 10 |};
                 calib := Demo.cal |} (AInt 1) (Demo.world 1 2 1) =
  Raise ZeroDivisionError.
Proof.
  apply (proj1 (axis_reader_no_samples
                  {| settings := {| samples := 0; deadzone := 3; at_ := 10 |};
                     calib := Demo.cal |} (AInt 1) (Demo.world 1 2 1))).
  reflexivity.
Defined.

(** ** More on [converter] *)

Section Sides.

Local Open Scope Q_scope.

Lemma clamp_bottom (x : Q) : x <= 0 -> Spec.clamp 0 100 x == 0.
Proof.
  intros H. unfold Spec.clamp.
  destruct (Py.ltb x 0) eqn:E1; [reflexivity |].
  destruct (Py.ltb 100 x) eqn:E2;
    repeat match goal with
      | H : Py.ltb _ _ = true |- _ => apply ltb_lt in H
      | H : Py.ltb _ _ = false |- _ => apply ltb_ge in H
      end; lra.
Qed.

Lemma quotient_negative (a b : Q) : 0 <= a -> b < 0 -> a / b * 100 <= 0.
Proof.
  intros Ha Hb.
  assert (E : a / b * 100 == - (a / (- b) * 100)) by (field; lra).
  assert (P : 0 <= a / (- b)) by (apply Qle_shift_div_l; lra).
  lra.
Qed.

Lemma percent_below_other_side (val low mx : Z) :
  (val < low)%Z -> (low < mx)%Z -> Spec.percent_below val low mx = 0%Z.
Proof.
  intros Hv Hm. unfold Spec.percent_below.
  change 0%Z with (Py.round 0). apply round_compat, clamp_bottom.
  apply inject_lt in Hv. apply inject_lt in Hm.
  apply quotient_negative; lra.
Qed.

Lemma percent_above_other_side (val high mx : Z) :
  (high < val)%Z -> (mx < high)%Z -> Spec.percent_above val high mx = 0%Z.
Proof.
  intros Hv Hm. unfold Spec.percent_above.
  change 0%Z with (Py.round 0). apply round_compat, clamp_bottom.
  apply inject_lt in Hv. apply inject_lt in Hm.
  apply quotient_negative; lra.
Qed.

End Sides.

Lemma axis_reader_world (self : Joystick) (axis : atom) (w w' : World)
    (val : Z) :
  axis_reader self axis w = Ok (val, w') ->
  w' = if atom_is axis 1
       then after_reads (Z.to_nat (samples (settings self))) 0 0 w
       else after_reads 0 (Z.to_nat (samples (settings self))) 0 w.
Proof.
  unfold axis_reader, bind, lift, ret.
  destruct (atom_is axis 1).
  - rewrite read_sum_window_a1.
    destruct (Py.truediv _ _); [| discriminate]. now intros [= _ <-].
  - rewrite read_sum_window_a2.
    destruct (Py.truediv _ _); [| discriminate]. now intros [= _ <-].
Qed.

Lemma converter_world (self : Joystick) (axis maxval : atom) (w w' : World)
    (p : Z) :
  converter self axis maxval w = Ok (p, w') ->
  w' = if atom_is axis 1
       then after_reads (Z.to_nat (samples (settings self))) 0 0 w
       else after_reads 0 (Z.to_nat (samples (settings self))) 0 w.
Proof.
  unfold converter. unfold bind at 1.
  destruct (axis_reader self axis w) as [[val w1] |] eqn:E; [| discriminate].
  apply axis_reader_world in E. rewrite <- E. clear E.
  unfold bind, lift, ret. intros H.
  repeat match type of H with
    | context [match ?x with _ => _ end] =>
        lazymatch x with
        | context [match _ with _ => _ end] => fail
        | _ => destruct x; try discriminate
        end
    end;
    now injection H as _ <-.
Qed.

(** X3.  Whenever [converter] returns, its value lies in 0..100, and
    all it has done to the world is to take the readings of one
    oversampled read of the axis: the other ADC, the button and the
    calibration file are as before. *)
Theorem converter_bounded (self : Joystick) (axis maxval : atom)
    (w w' : World) (p : Z) :
  converter self axis maxval w = Ok (p, w') ->
  0 <= p <= 100 /\
  w' = (if atom_is axis 1
        then after_reads (Z.to_nat (samples (settings self))) 0 0 w
        else after_reads 0 (Z.to_nat (samples (settings self))) 0 w).
Proof.
  intros H. split.
  - exact (converter_range self axis maxval w w' p H).
  - exact (converter_world self axis maxval w w' p H).
Qed.

Lemma converter_bounded_witness :
  0 <= 77 <= 100 /\
  Demo.later 15000 32768 1 3 0 0 =
    after_reads 3 0 0 (Demo.world 15000 32768 1).
Proof.
  apply (converter_bounded Demo.stick (AInt 1) (AInt 10000)
           (Demo.world 15000 32768 1) (Demo.later 15000 32768 1 3 0 0) 77).
  reflexivity.
Defined.

(** X4.  When the recorded extreme equals the bound of the side on
    which the sample lies, [converter] divides by zero and raises; the
    exception is not caught. *)
Theorem converter_degenerate (self : Joystick) (ax extreme_raw : Z)
    (w w' : World) (val low c high : Z) :
  Py.index (middle (calib self)) (ax - 1) = Ok [low; c; high] ->
  axis_reader self (AInt ax) w = Ok (val, w') ->
  (high < val /\ extreme_raw = high) \/
  (val <= high /\ val < low /\ extreme_raw = low) ->
  converter self (AInt ax) (AInt extreme_raw) w = Raise ZeroDivisionError.
Proof.
  intros Hband Hval H.
  rewrite (converter_run self ax _ w w' val low c high Hval Hband).
  unfold bind, lift, as_int, Py.truediv.
  destruct H as [[Hv ->] | (Hv & Hl & ->)].
  - destruct (Z.gtb_spec val high) as [_ | ?]; [| lia].
    now rewrite Z.sub_diag.
  - destruct (Z.gtb_spec val high) as [? | _]; [lia |].
    destruct (Z.ltb_spec val low) as [_ | ?]; [| lia].
    now rewrite Z.sub_diag.
Qed.

Lemma converter_degenerate_witness :
  converter Demo.stick (AInt 1) (AInt 33751) (Demo.world 40000 32768 1) =
  Raise ZeroDivisionError.
Proof.
  apply (converter_degenerate Demo.stick 1 33751 (Demo.world 40000 32768 1)
           (Demo.later 40000 32768 1 3 0 0) 40000 31785 32768 33751).
  - reflexivity.
  - reflexivity.
  - left. split; [lia | reflexivity].
Defined.

(** X5.  A sample outside the deadzone reads 0 for a direction whose
    extreme lies on the other side of the bound in question: a stick
    pushed below the band is not "right" when right was recorded above
    it, and the other way round. *)
Theorem converter_other_side (self : Joystick) (ax extreme_raw : Z)
    (w w' : World) (val low c high : Z) :
  Py.index (middle (calib self)) (ax - 1) = Ok [low; c; high] ->
  axis_reader self (AInt ax) w = Ok (val, w') ->
  low <= high ->
  (val < low /\ low < extreme_raw) \/ (high < val /\ extreme_raw < high) ->
  converter self (AInt ax) (AInt extreme_raw) w = Ok (0, w').
Proof.
  intros Hband Hval Hord [[Hv Hm] | [Hv Hm]].
  - rewrite (converter_below self ax low c high Hband extreme_raw w w' val)
      by (auto; lia).
    now rewrite percent_below_other_side.
  - rewrite (converter_above self ax low c high Hband extreme_raw w w' val)
      by (auto; lia).
    now rewrite percent_above_other_side.
Qed.

Lemma converter_other_side_witness :
  converter Demo.stick (AInt 1) (AInt 55000) (Demo.world 15000 32768 1) =
  Ok (0, Demo.later 15000 32768 1 3 0 0).
Proof.
  apply (converter_other_side Demo.stick 1 55000 (Demo.world 15000 32768 1)
           (Demo.later 15000 32768 1 3 0 0) 15000 31785 32768 33751).
  - reflexivity.
  - reflexivity.
  - lia.
  - left. lia.
Defined.

(** ** The shape of the answers *)

Section Answers.

Variable self : Joystick.

Lemma converter_same_file (axis maxval : atom) (w w' : World) (p : Z) :
  converter self axis maxval w = Ok (p, w') ->
  same_file w w' /\ pin w' = pin w.
Proof.
  intros H. apply converter_world in H. subst w'.
  destruct (atom_is axis 1); repeat split.
Qed.

Lemma direction_reading (m : bool -> M reading) (axis maxval : atom) :
  (forall percent,
      m percent = (p <- converter self axis maxval ;;
                   ret (if percent then RInt p else RBool (p >? 50)))) ->
  forall (w w' : World) (r : reading),
    m true w = Ok (r, w') ->
    exists p, r = RInt p /\ 0 <= p <= 100 /\
              same_file w w' /\ pin w' = pin w.
Proof.
  intros Hm w w' r. rewrite Hm. unfold bind, ret.
  destruct (converter self axis maxval w) as [[q w1] |] eqn:E; [| discriminate].
  intros [= <- <-]. exists q. split; [reflexivity |].
  split; [exact (converter_range _ _ _ _ _ _ E) |].
  exact (converter_same_file _ _ _ _ _ E).
Qed.

Lemma poll_invert (acc l : list (string * reading)) (w w' : World) :
  poll self ["up"; "down"; "right"; "left"]%string acc w = Ok (l, w') ->
  exists pu pd pr pl : Z,
    l = acc ++ [("up"%string, RInt pu); ("down"%string, RInt pd);
                ("right"%string, RInt pr); ("left"%string, RInt pl)] /\
    (0 <= pu <= 100 /\ 0 <= pd <= 100 /\ 0 <= pr <= 100 /\ 0 <= pl <= 100) /\
    same_file w w' /\ pin w' = pin w.
Proof.
  cbn [poll]. unfold bind, lift.
  cbn [getattr String.eqb Ascii.eqb Bool.eqb].
  destruct (up self true w) as [[ru w1] |] eqn:Eu; [| discriminate].
  cbn [getattr String.eqb Ascii.eqb Bool.eqb].
  destruct (down self true w1) as [[rd w2] |] eqn:Ed; [| discriminate].
  cbn [getattr String.eqb Ascii.eqb Bool.eqb].
  destruct (right self true w2) as [[rr w3] |] eqn:Er; [| discriminate].
  cbn [getattr String.eqb Ascii.eqb Bool.eqb].
  destruct (left self true w3) as [[rl w4] |] eqn:El; [| discriminate].
  unfold ret. intros [= <- <-].
  destruct (direction_reading (up self) _ _ (fun _ => eq_refl) _ _ _ Eu)
    as (pu & -> & Ru & [Fu1 Fu2] & Pu).
  destruct (direction_reading (down self) _ _ (fun _ => eq_refl) _ _ _ Ed)
    as (pd & -> & Rd & [Fd1 Fd2] & Pd).
  destruct (direction_reading (right self) _ _ (fun _ => eq_refl) _ _ _ Er)
    as (pr & -> & Rr & [Fr1 Fr2] & Pr).
  destruct (direction_reading (left self) _ _ (fun _ => eq_refl) _ _ _ El)
    as (pl & -> & Rl & [Fl1 Fl2] & Pl).
  exists pu, pd, pr, pl. split.
  - rewrite <- !app_assoc. reflexivity.
  - split; [auto |]. unfold same_file. repeat split; congruence.
Qed.

Lemma max_direction_answer (as_bool : bool) (w w' : World) (a : answer) :
  max_direction self as_bool w = Ok (a, w') ->
  (same_file w w' /\ pin w' = pin w) /\
  match a with
  | ANone => True
  | AName s =>
      as_bool = true /\ In s ["up"; "down"; "right"; "left"]%string
  | APair s r =>
      as_bool = false /\ In s ["up"; "down"; "right"; "left"]%string /\
      exists p, r = RInt p /\ 1 <= p <= 100
  end.
Proof.
  unfold max_direction. unfold bind at 1.
  destruct (poll self _ [] w) as [[l w1] |] eqn:Ep; [| discriminate].
  destruct (poll_invert _ _ _ _ Ep) as (pu & pd & pr & pl & -> & R & F & P).
  cbn [app].
  set (l := [("up"%string, RInt pu); ("down"%string, RInt pd);
             ("right"%string, RInt pr); ("left"%string, RInt pl)]).
  destruct (sort_desc l) as [| [name r] t] eqn:E.
  { apply sort_desc_nil in E. discriminate. }
  destruct (sort_desc_head l _ _ E) as (i & Hi & _ & _).
  assert (Hh : In name ["up"; "down"; "right"; "left"]%string /\
               exists p, r = RInt p /\ 0 <= p <= 100).
  { destruct i as [| [| [| [| i]]]]; cbn in Hi; try discriminate;
      injection Hi as <- <-; (split; [cbn; tauto | eexists; split; [reflexivity | tauto]]). }
  destruct Hh as (Hname & p & -> & Hp).
  unfold bind, lift. rewrite index_head. cbn [snd fst int_of].
  destruct (Z.eqb_spec p 0) as [E0 | E0].
  - unfold ret. intros [= <- <-]. auto.
  - destruct as_bool.
    + destruct (p >? 50); unfold ret; intros [= <- <-]; auto.
    + unfold ret. intros [= <- <-]. split; [auto |].
      split; [reflexivity |]. split; [exact Hname |].
      exists p. split; [reflexivity | lia].
Qed.

End Answers.

(** X6.  Whenever [get_all_states] returns, the list has exactly five
    items in the order button, up, down, right, left: the button as a
    truth value that is true at pin level 0, each direction as a
    percentage in 0..100.  The calibration file is untouched. *)
Theorem get_all_states_shape (self : Joystick) (w w' : World)
    (l : list (string * reading)) :
  get_all_states self w = Ok (l, w') ->
  exists (b : bool) (pu pd pr pl : Z),
    l = [("button", RBool b); ("up", RInt pu); ("down", RInt pd);
         ("right", RInt pr); ("left", RInt pl)]%string /\
    (b = true <-> sample (pin w) mod 2 = 0) /\
    (0 <= pu <= 100 /\ 0 <= pd <= 100 /\ 0 <= pr <= 100 /\ 0 <= pl <= 100) /\
    same_file w w'.
Proof.
  unfold get_all_states, button. unfold bind at 1. unfold bind at 1.
  unfold btn_value, ret. intros H.
  destruct (poll_invert self _ _ _ _ H) as (pu & pd & pr & pl & -> & R & F & _).
  exists (sample (pin w) mod 2 =? 0), pu, pd, pr, pl.
  split; [reflexivity |]. split; [apply Z.eqb_eq |]. split; [exact R |].
  exact F.
Qed.

Lemma get_all_states_shape_witness :
  exists (b : bool) (pu pd pr pl : Z),
    [("button", RBool false); ("up", RInt 0); ("down", RInt 0);
     ("right", RInt 0); ("left", RInt 77)]%string =
    [("button", RBool b); ("up", RInt pu); ("down", RInt pd);
     ("right", RInt pr); ("left", RInt pl)]%string /\
    (b = true <-> sample (pin (Demo.world 15000 32768 1)) mod 2 = 0) /\
    (0 <= pu <= 100 /\ 0 <= pd <= 100 /\ 0 <= pr <= 100 /\ 0 <= pl <= 100) /\
    same_file (Demo.world 15000 32768 1) (Demo.later 15000 32768 1 6 6 1).
Proof.
  apply (get_all_states_shape Demo.stick (Demo.world 15000 32768 1)).
  reflexivity.
Defined.

(** X7.  What [get] can answer: ["button"], [None], with [as_bool] one
    of the four direction names, without it a pair of such a name and a
    percentage in 1..100, never a pair with percentage 0.  [get] does
    not touch the calibration file. *)
Theorem get_answer (self : Joystick) (as_bool : bool) (w w' : World)
    (a : answer) :
  get self as_bool w = Ok (a, w') ->
  same_file w w' /\
  match a with
  | ANone => True
  | AName s =>
      s = "button"%string \/
      (as_bool = true /\ In s ["up"; "down"; "right"; "left"]%string)
  | APair s r =>
      as_bool = false /\ In s ["up"; "down"; "right"; "left"]%string /\
      exists p, r = RInt p /\ 1 <= p <= 100
  end.
Proof.
  unfold get, button. unfold bind at 1. unfold bind at 1.
  unfold btn_value, ret.
  destruct (sample (pin w) mod 2 =? 0).
  - intros [= <- <-]. split; [split; reflexivity | now left].
  - intros H. apply max_direction_answer in H.
    destruct H as [[[F1 F2] _] Ha]. split; [split; assumption |].
    destruct a; [exact I | right; exact Ha | exact Ha].
Qed.

Lemma get_answer_witness :
  same_file (Demo.world 15000 32768 1) (Demo.later 15000 32768 1 6 6 1) /\
  (false = false /\ In "left"%string ["up"; "down"; "right"; "left"]%string /\
   exists p, RInt 77 = RInt p /\ 1 <= p <= 100).
Proof.
  exact (get_answer Demo.stick false (Demo.world 15000 32768 1)
           (Demo.later 15000 32768 1 6 6 1) (APair "left" (RInt 77)) eq_refl).
Defined.

(** ** What [load_calib] accepts *)

Section Accepts.

Lemma index_nat {A : Type} (l : list A) (k : nat) :
  Py.index l (Z.of_nat k) =
  match l !! k with
  | Some x => Ok x
  | None => Raise IndexError
  end.
Proof.
  unfold Py.index.
  destruct (Z.ltb_spec (Z.of_nat k) 0) as [? | _]; [lia |].
  destruct (Z.ltb_spec (Z.of_nat k) 0) as [? | _]; [lia |]. cbn [orb].
  rewrite Nat2Z.id.
  destruct (Z.leb_spec (Z.of_nat (length l)) (Z.of_nat k)) as [Hle | Hlt].
  - rewrite (proj2 (lookup_ge_None l k)) by lia. reflexivity.
  - reflexivity.
Qed.

Lemma cell_nat (data : list (list atom)) (i k : nat) (a : atom) :
  cell data (Z.of_nat i) (Z.of_nat k) = Ok a <->
  exists e : list atom, data !! i = Some e /\ e !! k = Some a.
Proof.
  unfold cell. rewrite index_nat. unfold entry.
  destruct (data !! i) as [e |]; cbv beta iota.
  - rewrite index_nat. destruct (e !! k) as [b |] eqn:Eb.
    + split.
      * intros H. injection H as H. subst b. exists e. split; [reflexivity | exact Eb].
      * intros (e' & He & Hk). injection He as He. subst e'.
        rewrite Eb in Hk. injection Hk as Hk. now subst b.
    + split; [discriminate |].
      intros (e' & He & Hk). injection He as He. subst e'.
      rewrite Eb in Hk. discriminate.
  - split; [discriminate | intros (e' & He & _); discriminate].
Qed.

Lemma three_fields (e : list atom) (a : atom) :
  e !! 2%nat = Some a -> (3 <=? length e)%nat = true.
Proof.
  intros H. apply lookup_lt_Some in H. apply Nat.leb_le. lia.
Qed.

Lemma fields_three (e : list atom) :
  (3 <=? length e)%nat = true -> exists a b c rest, e = a :: b :: c :: rest.
Proof.
  intros H. apply Nat.leb_le in H.
  destruct e as [| a [| b [| c rest]]]; cbn [length] in H; try lia.
  eauto.
Qed.

Lemma int_at_lookup (e : list atom) (k : nat) :
  int_at e k = true <-> exists z, e !! k = Some (AInt z).
Proof.
  unfold int_at, entry. destruct (e !! k) as [[z | s] |].
  - split; eauto.
  - split; [discriminate | intros (z & [=])].
  - split; [discriminate | intros (z & [=])].
Qed.

End Accepts.

(** X8.  [load_calib] succeeds exactly on the records that have at
    least five entries, ints at positions 2 and 4 of the first entry
    and at least three fields in each of the next four.  It checks
    nothing else: not the pose names, not the axis numbers, not the
    type of the extremes, and it ignores further entries and fields. *)
Theorem load_calib_accepts (cfg : Settings) (data : list entry) :
  (exists cal, load_calib cfg data = Ok cal) <-> loadable data = true.
Proof.
  split.
  - intros [cal H]. unfold load_calib in H.
    change 0 with (Z.of_nat 0) in H. change 1 with (Z.of_nat 1) in H.
    change 2 with (Z.of_nat 2) in H. change 3 with (Z.of_nat 3) in H.
    change 4 with (Z.of_nat 4) in H.
    unfold rbind in H.
    repeat match type of H with
      | match ?r with Ok _ => _ | Raise _ => _ end = Ok _ =>
          let E := fresh "E" in destruct r eqn:E; [| discriminate]
      end.
    repeat match goal with
      | E : cell _ _ _ = Ok _ |- _ =>
          apply cell_nat in E; destruct E as (? & ? & ?)
      end.
    repeat match goal with
      | E : as_int ?a = Ok _ |- _ => destruct a; [clear E | discriminate]
      end.
    destruct data as [| e0 [| e1 [| e2 [| e3 [| e4 rest]]]]];
      cbn in *; try discriminate.
    repeat match goal with
      | E : Some _ = Some _ |- _ => injection E as <-
      end.
    rewrite !andb_true_iff. repeat split;
      try (eapply three_fields; eassumption);
      apply int_at_lookup; eauto.
  - intros H. unfold loadable in H.
    destruct data as [| e0 [| e1 [| e2 [| e3 [| e4 rest]]]]];
      try discriminate.
    rewrite !andb_true_iff in H.
    destruct H as (((((H2 & H4) & L1) & L2) & L3) & L4).
    apply int_at_lookup in H2. destruct H2 as [c1 H2].
    apply int_at_lookup in H4. destruct H4 as [c2 H4].
    destruct (fields_three _ L1) as (? & ? & ? & ? & ->).
    destruct (fields_three _ L2) as (? & ? & ? & ? & ->).
    destruct (fields_three _ L3) as (? & ? & ? & ? & ->).
    destruct (fields_three _ L4) as (? & ? & ? & ? & ->).
    destruct e0 as [| f0 [| f1 [| f2 [| f3 [| f4 more]]]]];
      cbn in H2, H4; try discriminate.
    injection H2 as ->. injection H4 as ->.
    eexists. unfold load_calib, cell, rbind.
    change 0 with (Z.of_nat 0). change 1 with (Z.of_nat 1).
    change 2 with (Z.of_nat 2). change 3 with (Z.of_nat 3).
    change 4 with (Z.of_nat 4).
    repeat (rewrite index_nat; cbn [lookup list_lookup as_int]; cbv beta iota).
    reflexivity.
Qed.

(** Five entries are needed: the empty record of a fresh file does not
    load, which is why [__init__] calibrates first. *)
Example empty_record_does_not_load (cfg : Settings) :
  load_calib cfg [] = Raise IndexError.
Proof. reflexivity. Qed.

(** ** The width of the deadzone *)

Section Width.

Local Open Scope Q_scope.

Lemma band_low_shrinks (c d d' : Z) :
  (0 <= c)%Z -> (d <= d')%Z ->
  (Py.round (inject_Z c * (1 - inject_Z d' / 100)) <=
   Py.round (inject_Z c * (1 - inject_Z d / 100)))%Z.
Proof.
  intros Hc Hd. apply round_mono.
  apply inject_le in Hc. apply inject_le in Hd.
  change (inject_Z 0) with 0 in Hc.
  revert Hc Hd. generalize (inject_Z c) (inject_Z d) (inject_Z d').
  intros x y y' Hx Hy.
  assert (H : 0 <= x * ((y' - y) / 100)).
  { apply Qmult_le_0_compat; [exact Hx |]. apply Qle_shift_div_l; lra. }
  assert (E : x * (1 - y / 100) == x * (1 - y' / 100) + x * ((y' - y) / 100))
    by field.
  lra.
Qed.

Lemma band_high_grows (c d d' : Z) :
  (0 <= c)%Z -> (d <= d')%Z ->
  (Py.round (inject_Z c * (1 + inject_Z d / 100)) <=
   Py.round (inject_Z c * (1 + inject_Z d' / 100)))%Z.
Proof.
  intros Hc Hd. apply round_mono.
  apply inject_le in Hc. apply inject_le in Hd.
  change (inject_Z 0) with 0 in Hc.
  revert Hc Hd. generalize (inject_Z c) (inject_Z d) (inject_Z d').
  intros x y y' Hx Hy.
  assert (H : 0 <= x * ((y' - y) / 100)).
  { apply Qmult_le_0_compat; [exact Hx |]. apply Qle_shift_div_l; lra. }
  assert (E : x * (1 + y' / 100) == x * (1 + y / 100) + x * ((y' - y) / 100))
    by field.
  lra.
Qed.

Lemma band_zero (c : Z) : Spec.band c 0 = [c; c; c].
Proof.
  unfold Spec.band. change (inject_Z 0) with 0.
  assert (E1 : inject_Z c * (1 - 0 / 100) == inject_Z c) by field.
  assert (E2 : inject_Z c * (1 + 0 / 100) == inject_Z c) by field.
  now rewrite (round_compat _ _ E1), (round_compat _ _ E2), round_inject.
Qed.

End Width.

(** X9.  For a centre that is not negative, a larger deadzone setting
    never narrows the band that [load_calib] derives: the low bound
    does not rise and the high bound does not fall, and the centre
    stays inside.  With deadzone 0 the band is the centre alone. *)
Theorem deadzone_widens_band (cfg cfg' : Settings) (data : list entry)
    (cal cal' : Calib) (c1 c2 : Z) :
  load_calib cfg data = Ok cal ->
  load_calib cfg' data = Ok cal' ->
  cell data 0 2 = Ok (AInt c1) -> cell data 0 4 = Ok (AInt c2) ->
  0 <= c1 -> 0 <= c2 ->
  0 <= deadzone cfg <= deadzone cfg' ->
  exists l1 h1 l2 h2 l1' h1' l2' h2' : Z,
    middle cal = [[l1; c1; h1]; [l2; c2; h2]] /\
    middle cal' = [[l1'; c1; h1']; [l2'; c2; h2']] /\
    (l1' <= l1 <= c1 /\ c1 <= h1 <= h1') /\
    (l2' <= l2 <= c2 /\ c2 <= h2 <= h2') /\
    (deadzone cfg = 0 -> l1 = c1 /\ h1 = c1 /\ l2 = c2 /\ h2 = c2).
Proof.
  intros Hl Hl' E1 E2 H1 H2 [Hd Hdd].
  destruct (load_calib_ranges cfg data cal Hl)
    as (a1 & a2 & F1 & F2 & _ & _ & Hm).
  destruct (load_calib_ranges cfg' data cal' Hl')
    as (b1 & b2 & G1 & G2 & _ & _ & Hm').
  rewrite E1 in F1, G1. rewrite E2 in F2, G2.
  injection F1 as <-. injection F2 as <-.
  injection G1 as <-. injection G2 as <-.
  rewrite Hm, Hm'. unfold Spec.band. do 8 eexists.
  split; [reflexivity |]. split; [reflexivity |].
  pose proof (band_ordered c1 (deadzone cfg) _ _ H1 Hd eq_refl) as O1.
  pose proof (band_ordered c2 (deadzone cfg) _ _ H2 Hd eq_refl) as O2.
  pose proof (band_low_shrinks c1 _ _ H1 Hdd).
  pose proof (band_high_grows c1 _ _ H1 Hdd).
  pose proof (band_low_shrinks c2 _ _ H2 Hdd).
  pose proof (band_high_grows c2 _ _ H2 Hdd).
  split; [lia |]. split; [lia |].
  intros Hz. rewrite Hz.
  pose proof (band_zero c1) as Z1. pose proof (band_zero c2) as Z2.
  unfold Spec.band in Z1, Z2.
  injection Z1 as -> ->. injection Z2 as -> ->. repeat split.
Qed.

Lemma deadzone_widens_band_witness :
  exists l1 h1 l2 h2 l1' h1' l2' h2' : Z,
    middle Demo.cal = [[l1; 32768; h1]; [l2; 32768; h2]] /\
    [[29491; 32768; 36045]; [29491; 32768; 36045]] =
      [[l1'; 32768; h1']; [l2'; 32768; h2']] /\
    (l1' <= l1 <= 32768 /\ 32768 <= h1 <= h1') /\
    (l2' <= l2 <= 32768 /\ 32768 <= h2 <= h2') /\
    (3 = 0 -> l1 = 32768 /\ h1 = 32768 /\ l2 = 32768 /\ h2 = 32768).
Proof.
  apply (deadzone_widens_band Demo.cfg
           {| samples := 3; deadzone := 10; at_ := 10 |} Demo.record
           Demo.cal
           {| middle1 := 32768; middle1_range := [29491; 32768; 36045];
              middle2 := 32768; middle2_range := [29491; 32768; 36045];
              middle := [[29491; 32768; 36045]; [29491; 32768; 36045]];
              leftval := AInt 10000; leftaxis := AInt 1;
              rightval := AInt 55000; rightaxis := AInt 1;
              upval := AInt 10000; upaxis := AInt 2;
              downval := AInt 55000; downaxis := AInt 2 |}
           32768 32768).
  - reflexivity.
  - reflexivity.
  - reflexivity.
  - reflexivity.
  - lia.
  - lia.
  - cbn. lia.
Defined.

(** ** The record that [calibrate] builds *)

Section Built.

Variable w : World.

Local Abbreviation r1 k := (sample (Nat.iter k advance (adc1 w)) mod 65536).
Local Abbreviation r2 k := (sample (Nat.iter k advance (adc2 w)) mod 65536).

Lemma calibrate_pose_entry (direction : string) (k : nat) :
  exists e,
    calibrate_pose direction (after_reads k k 0 w) =
      Ok (e, after_reads (S k) (S k) 0 w) /\
    (direction = "MIDDLE"%string ->
     e = [AStr direction; AInt 1; AInt (r1 k); AInt 2; AInt (r2 k)]) /\
    (direction <> "MIDDLE"%string ->
     exists a v, e = [AStr direction; AInt a; AInt v] /\
                 ((a = 1 /\ v = r1 k) \/ (a = 2 /\ v = r2 k))).
Proof.
  unfold calibrate_pose, bind, a1_read_u16, a2_read_u16, ret.
  cbn [adc1 adc2 pin file_text file_writable after_reads].
  destruct (String.eqb_spec direction "MIDDLE") as [E | E].
  - destruct (Py.ltb _ _); eexists; (split; [reflexivity |]);
      (split; [reflexivity | contradiction]).
  - destruct (Py.ltb _ _); eexists; (split; [reflexivity |]);
      (split; [contradiction |]); intros _; do 2 eexists;
      (split; [reflexivity |]); [left | right]; split; reflexivity.
Qed.

Lemma raw_range (c : Channel) : 0 <= sample c mod 65536 <= 65535.
Proof. pose proof (Z.mod_pos_bound (sample c) 65536 ltac:(lia)). lia. Qed.

End Built.

Lemma rewrite_file_inputs (cal_data : list entry) (w : World) :
  exists w', rewrite_file cal_data w = Ok (tt, w') /\
             adc1 w' = adc1 w /\ adc2 w' = adc2 w /\ pin w' = pin w.
Proof.
  unfold rewrite_file.
  destruct (setitem _ _ _); [destruct (file_writable w) |];
    eexists; repeat split.
Qed.

(** What [calibrate] returns and what it reads. *)
Lemma calibrate_builds (w : World) :
  exists (cal : list entry) (w' : World) (la lv ra rv ua uv da dv : Z),
    calibrate w = Ok (cal, w') /\
    cal = [ [AStr "MIDDLE"; AInt 1; AInt (sample (adc1 w) mod 65536);
             AInt 2; AInt (sample (adc2 w) mod 65536)];
            [AStr "LEFT"; AInt la; AInt lv];
            [AStr "RIGHT"; AInt ra; AInt rv];
            [AStr "UP"; AInt ua; AInt uv];
            [AStr "DOWN"; AInt da; AInt dv] ] /\
    Forall (fun '(k, a, v) =>
              (a = 1 /\ v = sample (Nat.iter k advance (adc1 w)) mod 65536) \/
              (a = 2 /\ v = sample (Nat.iter k advance (adc2 w)) mod 65536))
           [(1%nat, la, lv); (2%nat, ra, rv); (3%nat, ua, uv); (4%nat, da, dv)] /\
    Forall (fun v => 0 <= v <= 65535) [lv; rv; uv; dv] /\
    adc1 w' = Nat.iter 5 advance (adc1 w) /\
    adc2 w' = Nat.iter 5 advance (adc2 w) /\
    pin w' = pin w /\
    (forall cfg, exists c, load_calib cfg cal = Ok c).
Proof.
  unfold calibrate, pose_names. cbn [calibrate_loop]. unfold bind, ret.
  pose proof (calibrate_pose_entry w "MIDDLE" 0) as H0.
  rewrite world_eta in H0. destruct H0 as (e0 & -> & M & _).
  rewrite (M eq_refl). clear M e0.
  destruct (calibrate_pose_entry w "LEFT" 1) as (e1 & -> & _ & L).
  destruct (L ltac:(discriminate)) as (la & lv & -> & Hl). clear L.
  destruct (calibrate_pose_entry w "RIGHT" 2) as (e2 & -> & _ & R).
  destruct (R ltac:(discriminate)) as (ra & rv & -> & Hr). clear R.
  destruct (calibrate_pose_entry w "UP" 3) as (e3 & -> & _ & U).
  destruct (U ltac:(discriminate)) as (ua & uv & -> & Hu). clear U.
  destruct (calibrate_pose_entry w "DOWN" 4) as (e4 & -> & _ & D).
  destruct (D ltac:(discriminate)) as (da & dv & -> & Hd). clear D.
  cbn [app].
  match goal with
  | |- context [rewrite_file ?c ?x] =>
      destruct (rewrite_file_inputs c x) as (w' & -> & A1 & A2 & P)
  end.
  eexists _, w', la, lv, ra, rv, ua, uv, da, dv.
  split; [reflexivity |]. split; [reflexivity |].
  split.
  { repeat (apply Forall_cons; split; [assumption |]). apply List.Forall_nil. }
  split.
  { repeat (apply Forall_cons; split;
              [match goal with
               | H : (_ /\ ?v = _) \/ (_ /\ ?v = _) |- _ <= ?v <= _ =>
                   destruct H as [[_ ->] | [_ ->]]; apply raw_range
               end |]).
    apply List.Forall_nil. }
  split; [exact A1 |]. split; [exact A2 |]. split; [exact P |].
  intros cfg.
  destruct (load_calib_returns cfg "MIDDLE" "LEFT" "RIGHT" "UP" "DOWN"
              (AInt 1) (AInt 2) (sample (adc1 w) mod 65536)
              (sample (adc2 w) mod 65536)
              (AInt la) (AInt lv) (AInt ra) (AInt rv)
              (AInt ua) (AInt uv) (AInt da) (AInt dv)) as (c & Hc & _).
  exists c. exact Hc.
Qed.

(** X10.  [calibrate] always returns, whatever the file allows.  It
    takes five readings of each axis and none of the button, and its
    record has the five poses MIDDLE, LEFT, RIGHT, UP, DOWN in this
    order: the MIDDLE entry with both first readings under axis
    numbers 1 and 2, every other entry with axis 1 or 2 and the
    reading of that axis in that pose, all readings within 0..65535.
    The record loads with every setting. *)
Theorem calibrate_record (w : World) :
  exists (cal : list entry) (w' : World) (la lv ra rv ua uv da dv : Z),
    calibrate w = Ok (cal, w') /\
    cal = [ [AStr "MIDDLE"; AInt 1; AInt (sample (adc1 w) mod 65536);
             AInt 2; AInt (sample (adc2 w) mod 65536)];
            [AStr "LEFT"; AInt la; AInt lv];
            [AStr "RIGHT"; AInt ra; AInt rv];
            [AStr "UP"; AInt ua; AInt uv];
            [AStr "DOWN"; AInt da; AInt dv] ] /\
    Forall (fun '(k, a, v) =>
              (a = 1 /\ v = sample (Nat.iter k advance (adc1 w)) mod 65536) \/
              (a = 2 /\ v = sample (Nat.iter k advance (adc2 w)) mod 65536))
           [(1%nat, la, lv); (2%nat, ra, rv); (3%nat, ua, uv); (4%nat, da, dv)] /\
    Forall (fun v => 0 <= v <= 65535) [lv; rv; uv; dv] /\
    adc1 w' = Nat.iter 5 advance (adc1 w) /\
    adc2 w' = Nat.iter 5 advance (adc2 w) /\
    pin w' = pin w /\
    (forall cfg, exists c, load_calib cfg cal = Ok c).
Proof. apply calibrate_builds. Qed.

(** X11.  When the file cannot be opened for writing, or has fewer
    than two lines so that [lines[1]] does not exist, [calibrate]
    still returns its record and the file keeps its content: the
    exception ends in the [except] branch. *)
Theorem calibrate_survives_write_failure (w : World) :
  file_writable w = false \/
  (length (Text.readlines (file_text w)) < 2)%nat ->
  exists cal w', calibrate w = Ok (cal, w') /\ file_text w' = file_text w.
Proof. apply calibrate_leaves_file. Qed.

Lemma calibrate_survives_write_failure_witness :
  exists cal w',
    calibrate {| adc1 := Demo.steady 1; adc2 := Demo.steady 2;
                 pin := Demo.steady 1;
                 file_text := Text.chars "one line only";
                 file_writable := true |} = Ok (cal, w') /\
    file_text w' = Text.chars "one line only".
Proof.
  apply (calibrate_survives_write_failure
           {| adc1 := Demo.steady 1; adc2 := Demo.steady 2;
              pin := Demo.steady 1;
              file_text := Text.chars "one line only";
              file_writable := true |}).
  right. vm_compute. lia.
Defined.

(** ** Start-up *)

Section Start.

Import Text.

Variable cfg : Settings.

Lemma init_with_record (w : World) (data : list entry) :
  eval (second_line (file_text w)) = Some data -> data <> [] ->
  init cfg w =
  match load_calib cfg data with
  | Ok c => Ok ({| settings := cfg; calib := c |}, w)
  | Raise e => Raise e
  end.
Proof.
  intros E Hne. unfold init. rewrite E.
  destruct data as [| e data]; [contradiction |].
  unfold bind, ret, lift. destruct (load_calib cfg (e :: data)); reflexivity.
Qed.

Lemma second_line_short (text : list ascii) :
  (length (readlines text) < 2)%nat -> second_line text = [].
Proof.
  intros H. unfold second_line.
  destruct (readlines text) as [| l [| l' ls]] eqn:E; cbn [length] in H;
    try lia.
  - apply readlines_nil in E. subst text. reflexivity.
  - destruct (readline_head _ _ _ E) as (r & -> & Hr).
    apply readlines_nil in Hr. subst r. reflexivity.
Qed.

End Start.

(** X12.  With a record stored on line 2, as [calibrate] writes it,
    [__init__] neither samples the stick nor writes the file: the
    world is as before and the joystick carries what [load_calib]
    makes of that record (or its exception). *)
Theorem init_loads_stored_record (cfg : Settings) (w : World)
    (first : list ascii) (rest : list (list ascii)) (data : list entry) :
  Text.readlines (file_text w) =
    first :: (Text.repr data ++ [Text.nl]) :: rest ->
  data <> [] ->
  init cfg w =
  match load_calib cfg data with
  | Ok c => Ok ({| settings := cfg; calib := c |}, w)
  | Raise e => Raise e
  end.
Proof.
  intros Hlines Hne. apply init_with_record; [| exact Hne].
  rewrite (second_line_of_lines _ _ _ _ Hlines).
  unfold Text.repr. rewrite strip_line. apply eval_repr.
Qed.

Lemma init_loads_stored_record_witness :
  init Demo.cfg
    {| adc1 := Demo.steady 1; adc2 := Demo.steady 2; pin := Demo.steady 1;
       file_text := Text.chars "# head" ++ [Text.nl]
                    ++ Text.repr Demo.record ++ [Text.nl];
       file_writable := false |} =
  Ok (Demo.stick,
      {| adc1 := Demo.steady 1; adc2 := Demo.steady 2; pin := Demo.steady 1;
         file_text := Text.chars "# head" ++ [Text.nl]
                      ++ Text.repr Demo.record ++ [Text.nl];
         file_writable := false |}).
Proof.
  apply (init_loads_stored_record Demo.cfg _
           (Text.chars "# head" ++ [Text.nl]) [] Demo.record).
  - reflexivity.
  - discriminate.
Defined.

(** X13.  After a calibration that could write the file, the next
    start reads the record back from line 2 and loads it without
    calibrating again. *)
Theorem restart_after_calibration (cfg : Settings) (w : World) :
  file_writable w = true ->
  (2 <= length (Text.readlines (file_text w)))%nat ->
  exists cal w' c,
    calibrate w = Ok (cal, w') /\
    load_calib cfg cal = Ok c /\
    init cfg w' = Ok ({| settings := cfg; calib := c |}, w').
Proof.
  intros Hw Hlen.
  destruct (calibrate_then_read w Hw Hlen) as (cal & w' & Hc & He).
  destruct (calibrate_builds w)
    as (cal0 & w0 & la & lv & ra & rv & ua & uv & da & dv
        & Hc0 & Hcal & _ & _ & _ & _ & _ & Hload).
  rewrite Hc in Hc0. injection Hc0 as <- <-.
  destruct (Hload cfg) as [c Hl].
  exists cal, w', c. split; [exact Hc |]. split; [exact Hl |].
  rewrite (init_with_record cfg w' cal He) by (rewrite Hcal; discriminate).
  now rewrite Hl.
Qed.

Lemma restart_after_calibration_witness :
  exists cal w' c,
    calibrate (Demo.world 15000 32768 1) = Ok (cal, w') /\
    load_calib Demo.cfg cal = Ok c /\
    init Demo.cfg w' = Ok ({| settings := Demo.cfg; calib := c |}, w').
Proof.
  apply (restart_after_calibration Demo.cfg (Demo.world 15000 32768 1)).
  - reflexivity.
  - vm_compute. lia.
Defined.

(** X14.  On a fresh file, whose line 2 evaluates to the empty list,
    [__init__] calibrates once and loads the record just built; it
    never fails there, also when the record cannot be written. *)
Theorem init_calibrates_fresh_file (cfg : Settings) (w : World) :
  Text.eval (second_line (file_text w)) = Some [] ->
  exists cal w' c,
    calibrate w = Ok (cal, w') /\
    load_calib cfg cal = Ok c /\
    init cfg w = Ok ({| settings := cfg; calib := c |}, w').
Proof.
  intros E.
  destruct (calibrate_builds w)
    as (cal & w' & la & lv & ra & rv & ua & uv & da & dv
        & Hc & _ & _ & _ & _ & _ & _ & Hload).
  destruct (Hload cfg) as [c Hl].
  exists cal, w', c. split; [exact Hc |]. split; [exact Hl |].
  unfold init. rewrite E. unfold bind, lift, ret. now rewrite Hc, Hl.
Qed.

Lemma init_calibrates_fresh_file_witness :
  exists cal w' c,
    calibrate (Demo.world 15000 32768 1) = Ok (cal, w') /\
    load_calib Demo.cfg cal = Ok c /\
    init Demo.cfg (Demo.world 15000 32768 1) =
      Ok ({| settings := Demo.cfg; calib := c |}, w').
Proof.
  apply (init_calibrates_fresh_file Demo.cfg (Demo.world 15000 32768 1)).
  reflexivity.
Defined.

(** X15.  A file with fewer than two lines has no line 2 to evaluate:
    [__init__] raises [OSError] and does not calibrate. *)
Theorem init_rejects_short_file (cfg : Settings) (w : World) :
  (length (Text.readlines (file_text w)) < 2)%nat ->
  init cfg w = Raise OSError.
Proof.
  intros H. unfold init. now rewrite (second_line_short _ H).
Qed.

Lemma init_rejects_short_file_witness :
  init Demo.cfg
    {| adc1 := Demo.steady 1; adc2 := Demo.steady 2; pin := Demo.steady 1;
       file_text := Text.chars "# Calibration (will be automatically written)";
       file_writable := true |} = Raise OSError.
Proof.
  apply (init_rejects_short_file Demo.cfg).
  vm_compute. lia.
Defined.

(** ** The polling coroutines *)

Section Waiting.

Lemma button_read (w : World) :
  button w = Ok (sample (pin w) mod 2 =? 0, after_reads 0 0 1 w).
Proof. reflexivity. Qed.

Lemma after_pin_reads (k : nat) (w : World) :
  after_reads 0 0 k (after_reads 0 0 1 w) = after_reads 0 0 (S k) w.
Proof.
  unfold after_reads. cbn [adc1 adc2 pin file_text file_writable].
  change (Nat.iter 1 advance (pin w)) with (advance (pin w)).
  rewrite (iter_advance k (pin w)). reflexivity.
Qed.

Lemma button_waiter_released (k polls : nat) (w : World) :
  (forall i, (i < k)%nat -> sample (Nat.iter i advance (pin w)) mod 2 = 0) ->
  sample (Nat.iter k advance (pin w)) mod 2 <> 0 ->
  (k < polls)%nat ->
  button_waiter polls w = Ok (Some tt, after_reads 0 0 (S k) w).
Proof.
  revert polls w. induction k as [| k IH]; intros polls w Hp Hr Hlt;
    (destruct polls as [| polls]; [lia |]);
    cbn [button_waiter]; unfold bind; rewrite button_read.
  - change (Nat.iter 0 advance (pin w)) with (pin w) in Hr.
    apply Z.eqb_neq in Hr. rewrite Hr. reflexivity.
  - pose proof (Hp 0%nat ltac:(lia)) as H0.
    change (Nat.iter 0 advance (pin w)) with (pin w) in H0.
    apply Z.eqb_eq in H0. rewrite H0.
    rewrite (IH polls (after_reads 0 0 1 w)).
    + now rewrite after_pin_reads.
    + intros i Hi. cbn [after_reads pin].
      change (Nat.iter 1 advance (pin w)) with (advance (pin w)).
      rewrite (iter_advance i (pin w)). apply Hp. lia.
    + cbn [after_reads pin].
      change (Nat.iter 1 advance (pin w)) with (advance (pin w)).
      now rewrite (iter_advance k (pin w)).
    + lia.
Qed.

Lemma button_waiter_held (polls : nat) (w : World) :
  (forall i, (i < polls)%nat ->
             sample (Nat.iter i advance (pin w)) mod 2 = 0) ->
  button_waiter polls w = Ok (None, after_reads 0 0 polls w).
Proof.
  revert w. induction polls as [| polls IH]; intros w Hp;
    cbn [button_waiter].
  - unfold ret. now rewrite world_eta.
  - unfold bind. rewrite button_read.
    pose proof (Hp 0%nat ltac:(lia)) as H0.
    change (Nat.iter 0 advance (pin w)) with (pin w) in H0.
    apply Z.eqb_eq in H0. rewrite H0.
    rewrite (IH (after_reads 0 0 1 w)).
    + now rewrite after_pin_reads.
    + intros i Hi. cbn [after_reads pin].
      change (Nat.iter 1 advance (pin w)) with (advance (pin w)).
      rewrite (iter_advance i (pin w)). apply Hp. lia.
Qed.

End Waiting.

(** X16.  [button_waiter] reads the button until it is released.  If
    the pin reads 0 on the next [k] polls and another level on the one
    after, the coroutine ends after exactly [k + 1] reads of the pin,
    with no other effect; if the pin reads 0 on every poll of the
    bound, the bound is reached. *)
Theorem button_waiter_ends_on_release (k polls : nat) (w : World) :
  ((forall i, (i < k)%nat -> sample (Nat.iter i advance (pin w)) mod 2 = 0) ->
   sample (Nat.iter k advance (pin w)) mod 2 <> 0 ->
   (k < polls)%nat ->
   button_waiter polls w = Ok (Some tt, after_reads 0 0 (S k) w)) /\
  ((forall i, (i < polls)%nat ->
              sample (Nat.iter i advance (pin w)) mod 2 = 0) ->
   button_waiter polls w = Ok (None, after_reads 0 0 polls w)).
Proof.
  split; [apply button_waiter_released | apply button_waiter_held].
Qed.

Lemma button_waiter_ends_on_release_witness :
  button_waiter 5
    {| adc1 := Demo.steady 0; adc2 := Demo.steady 0;
       pin := {| feed := fun i => if (i <? 2)%nat then 0 else 1; pos := 0 |};
       file_text := []; file_writable := false |} =
  Ok (Some tt,
      after_reads 0 0 3
        {| adc1 := Demo.steady 0; adc2 := Demo.steady 0;
           pin := {| feed := fun i => if (i <? 2)%nat then 0 else 1;
                     pos := 0 |};
           file_text := []; file_writable := false |}).
Proof.
  refine (proj1 (button_waiter_ends_on_release 2 5 _) _ _ _).
  - intros [| [| i]] Hi; [reflexivity | reflexivity | lia].
  - discriminate.
  - lia.
Defined.

Section Polling.

Variable self : Joystick.
Variable as_bool : bool.

Lemma get_waiter_done (polls : nat) (val : answer) (w : World) :
  truthy val = true ->
  get_waiter self as_bool polls val w = Ok (Some val, w).
Proof. intros H. destruct polls; cbn [get_waiter]; now rewrite H. Qed.

Lemma name_truthy (s : string) :
  In s ["up"; "down"; "right"; "left"]%string -> truthy (AName s) = true.
Proof.
  intros [<- | [<- | [<- | [<- | []]]]]; reflexivity.
Qed.

Lemma get_waiter_step (polls : nat) (w : World) :
  match get self as_bool w with
  | Ok (ANone, w1) =>
      get_waiter self as_bool (S polls) ANone w =
      get_waiter self as_bool polls ANone w1
  | Ok (a, w1) =>
      get_waiter self as_bool (S polls) ANone w = Ok (Some a, w1)
  | Raise e => get_waiter self as_bool (S polls) ANone w = Raise e
  end.
Proof.
  cbn [get_waiter truthy]. unfold get, bind, ret.
  rewrite button_read.
  destruct (sample (pin w) mod 2 =? 0).
  - now apply get_waiter_done.
  - destruct (max_direction self as_bool (after_reads 0 0 1 w))
      as [[a w1] |] eqn:E; [| reflexivity].
    apply max_direction_answer in E. destruct E as [_ Ha].
    destruct a as [| s | s r]; [reflexivity | |].
    + apply get_waiter_done, name_truthy, Ha.
    + now apply get_waiter_done.
Qed.

Lemma get_keeps_file (w w' : World) (a : answer) :
  get self as_bool w = Ok (a, w') -> same_file w w'.
Proof.
  unfold get, bind, ret. rewrite button_read.
  destruct (sample (pin w) mod 2 =? 0).
  - intros [= _ <-]. split; reflexivity.
  - intros H. apply max_direction_answer in H.
    destruct H as [[[F1 F2] _] _]. split; assumption.
Qed.

Lemma get_waiter_sound (polls : nat) (w w' : World) (a : answer) :
  get_waiter self as_bool polls ANone w = Ok (Some a, w') ->
  a <> ANone /\ same_file w w' /\
  exists w0, get self as_bool w0 = Ok (a, w').
Proof.
  revert w. induction polls as [| polls IH]; intros w.
  - cbn [get_waiter truthy]. discriminate.
  - pose proof (get_waiter_step polls w) as Hs.
    destruct (get self as_bool w) as [[b w1] |] eqn:E.
    + pose proof (get_keeps_file w w1 b E) as F.
      destruct b as [| s | s r].
      * rewrite Hs. intros H. apply IH in H.
        destruct H as (Hn & F' & Hw). split; [exact Hn |].
        split; [| exact Hw].
        destruct F as [F1 F2], F' as [F1' F2'].
        split; congruence.
      * rewrite Hs. intros [= <- <-].
        split; [discriminate |]. split; [exact F | eauto].
      * rewrite Hs. intros [= <- <-].
        split; [discriminate |]. split; [exact F | eauto].
    + rewrite Hs. discriminate.
Qed.

End Polling.

(** X17.  Every poll of [get_waiter] is one [get]: an answer other
    than [None] ends the wait and is returned, [None] leads to the next
    poll from the world that [get] left, and an exception of [get]
    leaves the coroutine. *)
Theorem get_waiter_polls_get (self : Joystick) (as_bool : bool)
    (polls : nat) (w : World) :
  match get self as_bool w with
  | Ok (ANone, w1) =>
      get_waiter self as_bool (S polls) ANone w =
      get_waiter self as_bool polls ANone w1
  | Ok (a, w1) =>
      get_waiter self as_bool (S polls) ANone w = Ok (Some a, w1)
  | Raise e => get_waiter self as_bool (S polls) ANone w = Raise e
  end.
Proof. apply get_waiter_step. Qed.

(** X18.  What [get_waiter] returns is never [None]: it is the answer
    of the last [get] it made, and the calibration file is as it was
    when the wait began. *)
Theorem get_waiter_never_none (self : Joystick) (as_bool : bool)
    (polls : nat) (w w' : World) (a : answer) :
  get_waiter self as_bool polls ANone w = Ok (Some a, w') ->
  a <> ANone /\ same_file w w' /\
  exists w0, get self as_bool w0 = Ok (a, w').
Proof. apply get_waiter_sound. Qed.

Lemma get_waiter_never_none_witness :
  AName "left" <> ANone /\
  same_file (Demo.world 9000 32768 1) (Demo.later 9000 32768 1 6 6 1) /\
  exists w0, get Demo.stick true w0 =
             Ok (AName "left", Demo.later 9000 32768 1 6 6 1).
Proof.
  apply (get_waiter_never_none Demo.stick true 3 (Demo.world 9000 32768 1)).
  reflexivity.
Defined.

(** ** The file search *)

Section Search.

Lemma node_induction (P : node -> Prop) :
  (forall text, P (File text)) ->
  (forall entries, Forall (fun e => P (snd e)) entries -> P (Dir entries)) ->
  forall n, P n.
Proof.
  intros HF HD. fix IH 1. intros [text | entries]; [apply HF | apply HD].
  induction entries as [| [name n] es IHes]; constructor;
    [apply IH | exact IHes].
Qed.

Lemma deciding_defaults (above : list string) :
  deciding default_first_line default_file_type above =
  (default_first_line, default_file_type).
Proof. destruct above; reflexivity. Qed.

Lemma string_length_app (s1 s2 : string) :
  String.length (s1 ++ s2) = (String.length s1 + String.length s2)%nat.
Proof.
  induction s1 as [| c s1 IH]; cbn [String.append String.length];
    [reflexivity | now rewrite IH].
Qed.

Lemma below_length (l : list string) (path : string) :
  (String.length path + length l <= String.length (below path l))%nat.
Proof.
  revert path. induction l as [| a l IH]; intros path; cbn [below length].
  - lia.
  - specialize (IH (path ++ "/" ++ a)%string).
    rewrite !string_length_app in IH. cbn [String.length] in IH. lia.
Qed.

Lemma found_nonempty (d : node) (path fl ft p : string) :
  found_by d path fl ft p -> p <> ""%string.
Proof.
  intros (above & name & n & _ & -> & _) E.
  pose proof (below_length (above ++ [name]) path) as H.
  rewrite E, length_app in H. cbn in H. lia.
Qed.

Lemma found_in_child (entries : list (string * node)) (entry : string)
    (n : node) (path fl ft p : string) :
  In (entry, n) entries ->
  found_by n (path ++ "/" ++ entry) default_first_line default_file_type p ->
  found_by (Dir entries) path fl ft p.
Proof.
  intros Hin (above & name & m & Hr & -> & Ha).
  exists (entry :: above), name, m. split; [| split].
  - cbn [app]. eapply reaches_down; eassumption.
  - reflexivity.
  - rewrite deciding_defaults in Ha. exact Ha.
Qed.

Lemma found_here (entries : list (string * node)) (entry : string)
    (text : list ascii) (path fl ft : string) :
  In (entry, File text) entries ->
  endswith entry ft = true ->
  string_of_list_ascii (Text.strip (fst (Text.readline text))) = fl ->
  found_by (Dir entries) path fl ft (path ++ "/" ++ entry).
Proof.
  intros Hin He Hl. exists [], entry, (File text). split; [| split].
  - cbn [app]. eapply reaches_down; [exact Hin | constructor].
  - reflexivity.
  - exists text. cbn [deciding fst snd]. repeat split; assumption.
Qed.

Variable inner : node -> string -> result (option string).
Variable entries : list (string * node).
Variables path fl ft : string.

Hypothesis inner_sound :
  forall entry n p,
    In (entry, n) entries ->
    inner n (path ++ "/" ++ entry) = Ok (Some p) ->
    found_by n (path ++ "/" ++ entry) default_first_line default_file_type p.

Lemma find_each_sound (es : list (string * node)) (p : string) :
  (forall x, In x es -> In x entries) ->
  find_each inner path fl ft es = Ok (Some p) ->
  found_by (Dir entries) path fl ft p.
Proof.
  induction es as [| [entry n] es IH]; intros Hsub; cbn [find_each];
    [discriminate |].
  assert (Hin : In (entry, n) entries) by (apply Hsub; now left).
  assert (Hrest : forall x, In x es -> In x entries)
    by (intros x Hx; apply Hsub; now right).
  unfold rbind.
  destruct (endswith entry ft) eqn:He.
  - destruct n as [text | sub]; cbn [open_readline st_mode].
    + destruct (String.eqb_spec
                  (string_of_list_ascii
                     (Text.strip (fst (Text.readline text)))) fl) as [El | El].
      * intros [= <-]. now apply (found_here entries entry text).
      * cbn. now apply IH.
    + discriminate.
  - destruct n as [text | sub]; cbn [st_mode]; [cbn; now apply IH |].
    cbn [Z.land Z.eqb negb Pos.land].
    change (negb (Z.land 16384 16384 =? 0)) with true. cbv iota.
    destruct (inner (Dir sub) (path ++ "/" ++ entry)) as [[found |] |] eqn:Ei;
      [| now apply IH | discriminate].
    destruct (String.eqb_spec found "") as [E0 | E0]; [now apply IH |].
    intros [= <-]. eapply found_in_child; [exact Hin |].
    now apply inner_sound.
Qed.

(** When the loop ends with [None], no entry was accepted and every
    directory among the entries was searched to no avail. *)
Lemma find_each_none (es : list (string * node)) :
  (forall x, In x es -> In x entries) ->
  find_each inner path fl ft es = Ok None ->
  forall entry n,
    In (entry, n) es ->
    ~ accepted fl ft entry n /\
    (forall sub, n = Dir sub -> inner n (path ++ "/" ++ entry) = Ok None).
Proof.
  induction es as [| [entry n] es IH]; intros Hsub; cbn [find_each];
    [intros _ ? ? [] |].
  assert (Hin : In (entry, n) entries) by (apply Hsub; now left).
  assert (Hrest : forall x, In x es -> In x entries)
    by (intros x Hx; apply Hsub; now right).
  unfold rbind.
  destruct (endswith entry ft) eqn:He.
  - destruct n as [text | sub]; cbn [open_readline st_mode]; [| discriminate].
    destruct (String.eqb_spec
                (string_of_list_ascii
                   (Text.strip (fst (Text.readline text)))) fl) as [El | El];
      [discriminate |].
    cbn. intros H entry' n' [[= <- <-] | Hin'].
    + split; [| discriminate].
      intros (text' & [= <-] & _ & Hl). contradiction.
    + now apply IH.
  - destruct n as [text | sub]; cbn [st_mode].
    + cbn. intros H entry' n' [[= <- <-] | Hin'].
      * split; [| discriminate].
        intros (text' & _ & He' & _). congruence.
      * now apply IH.
    + change (negb (Z.land 16384 16384 =? 0)) with true. cbv iota.
      destruct (inner (Dir sub) (path ++ "/" ++ entry))
        as [[found |] |] eqn:Ei; [| | discriminate].
      * destruct (String.eqb_spec found "") as [E0 | E0]; [| discriminate].
        exfalso. subst found.
        exact (found_nonempty _ _ _ _ _ (inner_sound _ _ _ Hin Ei) eq_refl).
      * intros H entry' n' [[= <- <-] | Hin'].
        -- split; [| intros ? _; exact Ei].
           intros (text' & [=] & _).
        -- now apply IH.
Qed.

End Search.

Section Tree.

Lemma find_file_found (d : node) :
  forall path fl ft p,
    find_file d path fl ft = Ok (Some p) -> found_by d path fl ft p.
Proof.
  induction d as [text | entries IH] using node_induction;
    intros path fl ft p; cbn [find_file]; [discriminate |].
  intros H.
  refine (find_each_sound _ entries path fl ft _ entries p (fun x Hx => Hx) H).
  intros entry n q Hin. rewrite Forall_forall in IH.
  apply (IH (entry, n)). now apply list_elem_of_In.
Qed.

Lemma reaches_file (text : list ascii) (name : string) (names : list string)
    (n : node) :
  ~ reaches (File text) (name :: names) n.
Proof. intros H. inversion H. Qed.

Lemma find_file_nothing (d : node) :
  forall path fl ft,
    find_file d path fl ft = Ok None ->
    forall above name n,
      reaches d (above ++ [name]) n ->
      ~ accepted (fst (deciding fl ft above)) (snd (deciding fl ft above))
                 name n.
Proof.
  induction d as [text | entries IH] using node_induction;
    intros path fl ft; cbn [find_file]; [discriminate |].
  intros Hnone above name n Hr.
  assert (Hs : forall entry m q,
             In (entry, m) entries ->
             find_file m (path ++ "/" ++ entry) default_first_line
                       default_file_type = Ok (Some q) ->
             found_by m (path ++ "/" ++ entry) default_first_line
                      default_file_type q)
    by (intros; now apply find_file_found).
  pose proof (find_each_none _ entries path fl ft Hs entries
                (fun x H => H) Hnone) as Hall.
  destruct above as [| a above]; cbn [app] in Hr; inversion Hr; subst.
  - match goal with H : reaches _ [] _ |- _ => inversion H; subst end.
    cbn [deciding fst snd]. now apply (Hall name n).
  - match goal with
    | Hin : In (a, ?child) entries, Hc : reaches ?child _ _ |- _ =>
        destruct child as [text | sub];
          [destruct above; cbn [app] in Hc;
             exact (False_ind _ (reaches_file _ _ _ _ Hc)) |];
          destruct (Hall a (Dir sub) Hin) as [_ Hd];
          specialize (Hd sub eq_refl);
          rewrite Forall_forall in IH;
          pose proof (IH (a, Dir sub) (proj2 (list_elem_of_In _ _) Hin)
                         _ _ _ Hd above name n Hc) as Hno
    end.
    rewrite deciding_defaults in Hno. exact Hno.
Qed.

Lemma find_each_app (inner : node -> string -> result (option string))
    (path fl ft : string) (pre rest : list (string * node)) :
  find_each inner path fl ft pre = Ok None ->
  find_each inner path fl ft (pre ++ rest) = find_each inner path fl ft rest.
Proof.
  induction pre as [| [entry n] pre IH]; [reflexivity |].
  cbn [app find_each]. unfold rbind.
  destruct (if endswith entry ft then _ else _) as [[|] |];
    [discriminate | | discriminate].
  destruct (negb _); [| exact IH].
  destruct (inner n _) as [[found |] |]; [| exact IH | discriminate].
  destruct (String.eqb found ""); [exact IH | discriminate].
Qed.

Lemma find_each_top (inner : node -> string -> result (option string))
    (path fl ft fl' ft' : string) (es : list (string * node)) :
  (forall name n, In (name, n) es ->
                  endswith name ft = false /\ endswith name ft' = false) ->
  find_each inner path fl ft es = find_each inner path fl' ft' es.
Proof.
  induction es as [| [entry n] es IH]; intros H; [reflexivity |].
  cbn [find_each].
  destruct (H entry n ltac:(now left)) as [-> ->].
  rewrite IH by (intros name m Hin; apply (H name m); now right). reflexivity.
Qed.

End Tree.

(** X19.  A path that [find_file] returns names a file of the tree
    whose name ends in the file type and whose first line, stripped,
    is the first line asked for, where in the starting directory these
    are the arguments of the call and in every directory below it the
    two defaults, since the inner call passes the path alone. *)
Theorem find_file_sound (d : node) (path first_line file_type p : string) :
  find_file d path first_line file_type = Ok (Some p) ->
  exists (above : list string) (name : string) (n : node),
    reaches d (above ++ [name]) n /\
    p = below path (above ++ [name]) /\
    accepted (fst (deciding first_line file_type above))
             (snd (deciding first_line file_type above)) name n.
Proof. apply find_file_found. Qed.

Lemma find_file_sound_witness :
  exists (above : list string) (name : string) (n : node),
    reaches (Dir [("lib"%string,
                   Dir [("joystick.py"%string, File Demo.text)])])
            (above ++ [name]) n /\
    "/lib/joystick.py"%string = below "" (above ++ [name]) /\
    accepted (fst (deciding "other" ".txt" above))
             (snd (deciding "other" ".txt" above)) name n.
Proof.
  apply (find_file_sound
           (Dir [("lib"%string,
                  Dir [("joystick.py"%string, File Demo.text)])])
           "" "other" ".txt" "/lib/joystick.py").
  reflexivity.
Defined.

(** X20.  When [find_file] returns [None], no file of the tree is
    accepted at its depth: the search has looked at every entry of
    every directory below the start. *)
Theorem find_file_none (d : node) (path first_line file_type : string) :
  find_file d path first_line file_type = Ok None ->
  forall (above : list string) (name : string) (n : node),
    reaches d (above ++ [name]) n ->
    ~ accepted (fst (deciding first_line file_type above))
               (snd (deciding first_line file_type above)) name n.
Proof. apply find_file_nothing. Qed.

Lemma find_file_none_witness :
  ~ accepted default_first_line default_file_type "boot.py"
             (File (Text.chars "import os")).
Proof.
  refine (find_file_none
            (Dir [("boot.py"%string, File (Text.chars "import os"));
                  ("data"%string, Dir [("log.txt"%string, File [])])])
            "" default_first_line default_file_type _
            [] "boot.py" (File (Text.chars "import os")) _).
  - reflexivity.
  - cbn [app]. eapply reaches_down; [now left | constructor].
Defined.

(** X21.  An entry is opened as soon as its name ends in the file
    type, before it is known to be a file.  A directory with such a
    name, met before any file was accepted, ends the search with
    [OSError]. *)
Theorem find_file_opens_directory (pre post sub : list (string * node))
    (name path first_line file_type : string) :
  find_file (Dir pre) path first_line file_type = Ok None ->
  endswith name file_type = true ->
  find_file (Dir (pre ++ (name, Dir sub) :: post)) path first_line file_type =
  Raise OSError.
Proof.
  cbn [find_file]. intros Hpre He.
  rewrite (find_each_app _ _ _ _ _ _ Hpre). cbn [find_each].
  now rewrite He.
Qed.

Lemma find_file_opens_directory_witness :
  find_file (Dir ([("notes.txt"%string, File [])]
                  ++ ("lib.py"%string, Dir [])
                  :: [("main.py"%string, File Demo.text)]))
            "" default_first_line default_file_type =
  Raise OSError.
Proof.
  apply (find_file_opens_directory [("notes.txt"%string, File [])]).
  - reflexivity.
  - reflexivity.
Defined.

(** X22.  The arguments [first_line] and [file_type] count in the
    starting directory only.  If no entry name there ends in either
    of two file types, the search returns the same for both pairs of
    arguments, whatever lies in the directories below. *)
Theorem find_file_arguments_on_top (entries : list (string * node))
    (path fl ft fl' ft' : string) :
  (forall name n, In (name, n) entries ->
                  endswith name ft = false /\ endswith name ft' = false) ->
  find_file (Dir entries) path fl ft = find_file (Dir entries) path fl' ft'.
Proof. intros H. cbn [find_file]. now apply find_each_top. Qed.

Lemma find_file_arguments_on_top_witness :
  find_file (Dir [("lib"%string,
                   Dir [("joystick.py"%string, File Demo.text)])])
            "" "other" ".txt" =
  find_file (Dir [("lib"%string,
                   Dir [("joystick.py"%string, File Demo.text)])])
            "" default_first_line default_file_type.
Proof.
  apply (find_file_arguments_on_top
           [("lib"%string, Dir [("joystick.py"%string, File Demo.text)])]).
  intros name n [[= <- <-] | []]. split; reflexivity.
Defined.
